(** * cool-markdown: a shallow embedding of [script.js]

    The editor script is browser glue code.  This development embeds the
    few pieces of it that carry logic of their own: the timer helpers
    [debounce] and [throttle], the batched local-storage writer, the
    search and replace bar, the calculator's [calculate], the colour and
    unit converters and the password generator.

    Conventions.
    - A JavaScript string is the list of its UTF-16 code units ([list N]);
      [lit] turns an ASCII literal of the script into that form.
    - Browser built-ins that the script only calls (the Unicode upper-case
      table behind the [i] flag of a regular expression, [marked.parse],
      [parseFloat], [String] on a number) are section variables.
    - [undefined], [null] and a thrown exception are [None] where a
      function can produce them. *)

From Stdlib Require Import ZArith NArith QArith Qround List String Ascii Lia Bool.
From Stdlib Require Import DecimalString DecimalZ DecimalPos.
From Stdlib Require Import PrimFloat.
From stdpp Require Import gmap strings list.
Import ListNotations.

Local Open Scope nat_scope.

(* ===================================================================== *)
(** ** JavaScript strings *)
(* ===================================================================== *)

Module JS.

Abbreviation jsstring := (list N).

Definition chr (a : ascii) : N := N_of_ascii a.

(** The code units of an ASCII literal. *)
Definition lit (s : string) : jsstring := map chr (list_ascii_of_string s).

Definition in_range (lo hi c : N) : bool := ((lo <=? c) && (c <=? hi))%N.

(** WhiteSpace and LineTerminator code units, the set that
      [String.prototype.trim] strips. *)
Definition is_white_space (c : N) : bool :=
    (in_range 9 13 c || (c =? 32) || (c =? 160) || (c =? 5760)
     || in_range 8192 8202 c || (c =? 8232) || (c =? 8233) || (c =? 8239)
     || (c =? 8287) || (c =? 12288) || (c =? 65279))%N.

Fixpoint trimStart (s : jsstring) : jsstring :=
    match s with
    | [] => []
    | c :: r => if is_white_space c then trimStart r else s
    end.

Definition trimEnd (s : jsstring) : jsstring := rev (trimStart (rev s)).

Definition trim (s : jsstring) : jsstring := trimEnd (trimStart s).

(** [s.substring(a, b)] for [a <= b]. *)
Definition substring (a b : nat) (s : jsstring) : jsstring :=
    firstn (b - a) (skipn a s).

(** Truthiness of a string value: the empty string is falsy. *)
Definition truthy (s : jsstring) : bool :=
    match s with [] => false | _ => true end.

(** ASCII upper-casing, the part of [toUpperCase] that is fixed. *)
Definition ascii_upper (c : N) : N :=
    if in_range 97 122 c then (c - 32)%N else c.

Definition has_non_white_space (s : jsstring) : Prop :=
    Exists (fun c => is_white_space c = false) s.

End JS.
Import JS.

(* ===================================================================== *)
(** ** Regular expressions built from an escaped query *)
(* ===================================================================== *)

Module RegExp.

Definition backslash : N := 92.

(** The members of the class in
      [searchText.replace(/[.*+?^${}()|[\]\\]/g, '\\$&')]. *)
Definition escape_class : list N := lit ".*+?^${}()|[]" ++ [backslash].

Definition in_class (cls : list N) (c : N) : bool :=
    existsb (N.eqb c) cls.

(** [s.replace(/[...]/g, '\\$&')]: a backslash goes in front of every
      member of the class. *)
Fixpoint escapeRegExp (s : jsstring) : jsstring :=
    match s with
    | [] => []
    | c :: r =>
        if in_class escape_class c then backslash :: c :: escapeRegExp r
        else c :: escapeRegExp r
    end.

(** SyntaxCharacter of the pattern grammar. *)
Definition syntax_chars : list N := lit "^$" ++ [backslash] ++ lit ".*+?()[]{}|".

(** [new RegExp(pattern, ...)] on the fragment of the pattern language
      that denotes a literal: plain characters and identity escapes of
      syntax characters.  Every other pattern (an operator, a class, a
      group, an escape such as a digit class) is outside the fragment and
      yields [None]. *)
Fixpoint compile (p : jsstring) : option (list N) :=
    match p with
    | [] => Some []
    | c :: r =>
        if (c =? backslash)%N then
          match r with
          | c2 :: r2 =>
              if in_class syntax_chars c2
              then option_map (cons c2) (compile r2)
              else None
          | [] => None
          end
        else if in_class syntax_chars c then None
        else option_map (cons c) (compile r)
    end.

Section IgnoreCase.

(** The upper-case mapping of the code units above ASCII, as the
        engine's Unicode tables give it (a string: it can be longer than
        one unit). *)
Variable upper_nonascii : N -> jsstring.

Definition toUpperCase1 (ch : N) : jsstring :=
      if (ch <? 128)%N then [ascii_upper ch] else upper_nonascii ch.

(** Canonicalize of a pattern without the [u] flag and with [i]. *)
Definition Canonicalize (ch : N) : N :=
      match toUpperCase1 ch with
      | [cu] => if ((128 <=? ch) && (cu <? 128))%N then ch else cu
      | _ => ch
      end.

(** The literal matches at the head of [s]. *)
Fixpoint match_here (lits s : jsstring) : bool :=
      match lits, s with
      | [], _ => true
      | l :: lits', c :: s' =>
          (Canonicalize l =? Canonicalize c)%N && match_here lits' s'
      | _ :: _, [] => false
      end.

(** Offset of the first position of [s] at which the literal matches. *)
Fixpoint find_from (lits s : jsstring) : option nat :=
      if match_here lits s then Some 0
      else match s with
           | [] => None
           | _ :: s' => option_map S (find_from lits s')
           end.

(** [regex.exec(content)] for a global literal regex: the search starts
        at [lastIndex]; the result comes with the new [lastIndex]. *)
Definition exec (lits : jsstring) (lastIndex : nat) (content : jsstring)
      : option (nat * jsstring) * nat :=
      if length content <? lastIndex then (None, 0)
      else match find_from lits (skipn lastIndex content) with
           | None => (None, 0)
           | Some off =>
               let i := lastIndex + off in
               (Some (i, firstn (length lits) (skipn i content)),
                i + length lits)
           end.

End IgnoreCase.

End RegExp.

(* ===================================================================== *)
(** ** The search bar: [performSearch], [navigateSearch],
       [clearSearchHighlights], replace and replace-all *)
(* ===================================================================== *)

Module Search.
Import RegExp.

(** An entry of [searchMatches]: [{index, text, end}]. *)
Record Match := { index : nat; text : jsstring; end_ : nat }.

(** The state the search functions share.  [selection] is the editor's
    selection range as [setSelectionRange] leaves it, [searchCount] the
    two numbers of the counter; the scroll position is not modelled. *)
Record SearchState := {
  searchMatches : list Match;
  currentMatchIndex : Z;
  selection : nat * nat;
  searchCount : Z * nat
}.

Definition initial : SearchState :=
  {| searchMatches := []; currentMatchIndex := -1;
     selection := (0, 0); searchCount := (0%Z, 0) |}.

Definition clearSearchHighlights (st : SearchState) : SearchState :=
  {| searchMatches := []; currentMatchIndex := -1;
     selection := selection st; searchCount := (0%Z, 0) |}.

(** [highlightCurrentMatch]: returns early without matches or with a
    negative index; reading a field of [searchMatches[i]] for an [i] past
    the end throws, which is [None]. *)
Definition highlightCurrentMatch (st : SearchState) : option SearchState :=
  if (length (searchMatches st) =? 0) || (currentMatchIndex st <? 0)%Z
  then Some st
  else match nth_error (searchMatches st) (Z.to_nat (currentMatchIndex st)) with
       | None => None
       | Some m =>
           Some {| searchMatches := searchMatches st;
                   currentMatchIndex := currentMatchIndex st;
                   selection := (index m, end_ m);
                   searchCount := searchCount st |}
       end.

Definition set_count (st : SearchState) : SearchState :=
  {| searchMatches := searchMatches st;
     currentMatchIndex := currentMatchIndex st;
     selection := selection st;
     searchCount := ((currentMatchIndex st + 1)%Z, length (searchMatches st)) |}.

Definition navigateSearch (direction : Z) (st : SearchState)
  : option SearchState :=
  if length (searchMatches st) =? 0 then Some st
  else
    let i := (currentMatchIndex st + direction)%Z in
    let i := if (i <? 0)%Z then (Z.of_nat (length (searchMatches st)) - 1)%Z
             else if (i >=? Z.of_nat (length (searchMatches st)))%Z then 0%Z
             else i in
    option_map set_count
      (highlightCurrentMatch
         {| searchMatches := searchMatches st; currentMatchIndex := i;
            selection := selection st; searchCount := searchCount st |}).

Section IgnoreCase.

Variable upper_nonascii : N -> jsstring.

(** The [while ((match = regex.exec(content)) !== null)] loop.  The fuel
    bounds the number of calls of [exec]; [None] is a loop that has not
    finished within it. *)
Fixpoint exec_loop (fuel : nat) (lits content : jsstring) (lastIndex : nat)
    (acc : list Match) : option (list Match) :=
  match fuel with
  | 0 => None
  | S fuel' =>
      match exec upper_nonascii lits lastIndex content with
      | (Some (i, t), lastIndex') =>
          exec_loop fuel' lits content lastIndex'
            (acc ++ [{| index := i; text := t; end_ := i + length t |}])
      | (None, _) => Some acc
      end
  end.

(** [performSearch] with [searchInput.value = query] and
    [editor.value = content].  [None] stands for a pattern outside the
    literal fragment of [compile], a loop out of fuel or an exception. *)
Definition performSearch (fuel : nat) (query content : jsstring)
    (st : SearchState) : option SearchState :=
  let searchText := trim query in
  if negb (truthy searchText) then Some (clearSearchHighlights st)
  else
    match compile (escapeRegExp searchText) with
    | None => None
    | Some lits =>
        match exec_loop fuel lits content 0 [] with
        | None => None
        | Some ms =>
            let st1 := {| searchMatches := ms; currentMatchIndex := -1;
                          selection := selection st;
                          searchCount := searchCount st |} in
            let st2 :=
              if 0 <? length ms
              then highlightCurrentMatch
                     {| searchMatches := ms; currentMatchIndex := 0;
                        selection := selection st;
                        searchCount := searchCount st |}
              else Some st1 in
            option_map set_count st2
        end
    end.

(** One call of [exec] per match and a last one that fails: the content's
    length plus one is fuel enough for a non-empty literal. *)
Definition search_fuel (content : jsstring) : nat := S (length content).

(** The operations on the search state, with what they read from the
    page. *)
Inductive op :=
| PerformSearch (query content : jsstring)
| NavigateSearch (direction : Z)
| ClearSearchHighlights.

Definition run_op (o : op) (st : SearchState) : option SearchState :=
  match o with
  | PerformSearch q c => performSearch (search_fuel c) q c st
  | NavigateSearch d => navigateSearch d st
  | ClearSearchHighlights => Some (clearSearchHighlights st)
  end.

Fixpoint run_ops (ops : list op) (st : SearchState) : option SearchState :=
  match ops with
  | [] => Some st
  | o :: ops' =>
      match run_op o st with
      | None => None
      | Some st' => run_ops ops' st'
      end
  end.

(** Case-insensitive equality of two strings, unit by unit. *)
Definition ci_equal (a b : jsstring) : Prop :=
  Forall2 (fun x y => Canonicalize upper_nonascii x = Canonicalize upper_nonascii y) a b.

(** The literal [q] occurs in [content] at position [p]. *)
Definition occurs_at (q content : jsstring) (p : nat) : Prop :=
  p + length q <= length content /\
  ci_equal q (substring p (p + length q) content).

(** Ascending and non-overlapping: every match ends before the next one
    starts. *)
Fixpoint ascending (ms : list Match) : Prop :=
  match ms with
  | [] => True
  | m :: ms' =>
      match ms' with
      | [] => True
      | m' :: _ => end_ m <= index m'
      end /\ ascending ms'
  end.

(** What the loop started at [li] collects: occurrences from [li] on, in
    ascending order without overlap, such that every occurrence from [li]
    on is recorded or overlaps a recorded one that starts no later. *)
Definition collected (q content : jsstring) (li : nat) (ms : list Match) : Prop :=
  Forall (fun m => li <= index m /\ occurs_at q content (index m) /\
                   text m = substring (index m) (end_ m) content /\
                   end_ m = index m + length (text m)) ms /\
  ascending ms /\
  (forall p, li <= p -> occurs_at q content p ->
             exists m, In m ms /\ index m <= p < end_ m).

(** The search-state invariant. *)
Definition search_inv (st : SearchState) : Prop :=
  (searchMatches st = [] /\ currentMatchIndex st = (-1)%Z) \/
  (searchMatches st <> [] /\
   (0 <= currentMatchIndex st <= Z.of_nat (length (searchMatches st)) - 1)%Z).

(** *** Replace and replace-all *)

Definition dollar : N := 36.

(** GetSubstitution for a match without capture groups: in the template,
    a dollar followed by a dollar, by [&], by a backquote or by a quote
    stands for a dollar, the matched text, the text before the match and
    the text after it; any other dollar stands for itself. *)
Fixpoint GetSubstitution (matched str : jsstring) (position : nat)
    (template : jsstring) : jsstring :=
  match template with
  | [] => []
  | c :: r =>
      if (c =? dollar)%N then
        match r with
        | d :: r' =>
            if (d =? dollar)%N then
              dollar :: GetSubstitution matched str position r'
            else if (d =? 38)%N then
              matched ++ GetSubstitution matched str position r'
            else if (d =? 96)%N then
              firstn position str ++ GetSubstitution matched str position r'
            else if (d =? 39)%N then
              skipn (position + length matched) str
                ++ GetSubstitution matched str position r'
            else dollar :: GetSubstitution matched str position r
        | [] => [dollar]
        end
      else c :: GetSubstitution matched str position r
  end.

(** The result string of [content.replace(regex, replaceText)] from the
    matches of the global regex. *)
Fixpoint replace_matches (ms : list Match) (content : jsstring) (next : nat)
    (replaceText : jsstring) : jsstring :=
  match ms with
  | [] => skipn next content
  | m :: ms' =>
      if next <=? index m then
        substring next (index m) content
          ++ GetSubstitution (text m) content (index m) replaceText
          ++ replace_matches ms' content (index m + length (text m)) replaceText
      else replace_matches ms' content next replaceText
  end.

(** What the click on the replace-all button does to the editor and which
    toast it shows. *)
Inductive replaceAllOutcome :=
| ToastEnterQuery
| ToastNoMatch
| Declined
| Replaced (newContent : jsstring) (count : nat).

(** The replace-all handler with [searchInput.value = query],
    [replaceInput.value = replaceText], [editor.value = content] and the
    answer to [confirm].  The search that the handler runs afterwards is
    [performSearch] on the new content. *)
Definition replaceAll (query replaceText content : jsstring) (confirmed : bool)
  : option replaceAllOutcome :=
  let searchText := trim query in
  if negb (truthy searchText) then Some ToastEnterQuery
  else
    match compile (escapeRegExp searchText) with
    | None => None
    | Some lits =>
        match exec_loop (search_fuel content) lits content 0 [] with
        | None => None
        | Some ms =>
            let matchCount := length ms in
            if matchCount =? 0 then Some ToastNoMatch
            else if confirmed
                 then Some (Replaced (replace_matches ms content 0 replaceText)
                                     matchCount)
                 else Some Declined
        end
    end.

(** The replace button: the current match is cut out and [replaceText]
    put in its place as it is.  The result is the new [editor.value];
    [None] is a click that leaves the editor alone. *)
Definition replaceCurrent (query replaceText content : jsstring)
    (st : SearchState) : option jsstring :=
  if negb (truthy (trim query)) || (length (searchMatches st) =? 0) then None
  else if (0 <=? currentMatchIndex st)%Z
          && (currentMatchIndex st <? Z.of_nat (length (searchMatches st)))%Z
  then match nth_error (searchMatches st) (Z.to_nat (currentMatchIndex st)) with
       | Some m => Some (substring 0 (index m) content ++ replaceText
                           ++ skipn (end_ m) content)
       | None => None
       end
  else None.

(** Each recorded occurrence replaced by [replaceText] itself, the text
    between the occurrences kept: what replace-all is described to do. *)
Fixpoint replace_literally (ms : list Match) (content : jsstring) (next : nat)
    (replaceText : jsstring) : jsstring :=
  match ms with
  | [] => skipn next content
  | m :: ms' =>
      substring next (index m) content ++ replaceText
        ++ replace_literally ms' content (end_ m) replaceText
  end.

End IgnoreCase.

End Search.

(* ===================================================================== *)
(** ** Timers: [setTimeout], [clearTimeout] and the event loop *)
(* ===================================================================== *)

(** Time is a logical clock in milliseconds.  A timer set at time [t] with
    delay [d] is due at [t + max 0 d] and runs at that time: when the
    clock moves to [t'], the callbacks due at or before [t'] run first, in
    the order of their due times and, among equals, of their
    registration. *)
Module Timers.

Section Queue.

Context {C : Type}.

Record timer := { tid : nat; due : Z; callback : C }.

Record queue := { next_id : nat; pending : list timer }.

Definition empty : queue := {| next_id := 1; pending := [] |}.

Definition setTimeout (now : Z) (cb : C) (delay : Z) (q : queue)
  : nat * queue :=
  (next_id q,
   {| next_id := S (next_id q);
      pending := pending q
                 ++ [{| tid := next_id q; due := (now + Z.max 0 delay)%Z;
                        callback := cb |}] |}).

(** [clearTimeout(id)]; an [undefined] or unknown id changes nothing. *)
Definition clearTimeout (id : option nat) (q : queue) : queue :=
  match id with
  | None => q
  | Some i =>
      {| next_id := next_id q;
         pending := List.filter (fun t => negb (tid t =? i)) (pending q) |}
  end.

(** The first timer of the list with the least due time. *)
Fixpoint earliest (ts : list timer) : option timer :=
  match ts with
  | [] => None
  | t :: ts' =>
      match earliest ts' with
      | Some t' => if (due t' <? due t)%Z then Some t' else Some t
      | None => Some t
      end
  end.

(** The next timer to run when the clock moves to [t], taken out of the
    queue. *)
Definition pop_due (t : Z) (q : queue) : option (timer * queue) :=
  match earliest (pending q) with
  | Some tm =>
      if (due tm <=? t)%Z
      then Some (tm, {| next_id := next_id q;
                        pending := List.filter (fun x => negb (tid x =? tid tm))
                                     (pending q) |})
      else None
  | None => None
  end.

Context {S : Type}.

(** What a callback does when it runs at a given time. *)
Variable run_callback : Z -> C -> S * queue -> S * queue.

(** Run the callbacks due at or before [t].  [None]: callbacks are still
    due when the fuel is used up. *)
Fixpoint run_due (fuel : nat) (t : Z) (s : S * queue) : option (S * queue) :=
  match pop_due t (snd s) with
  | None => Some s
  | Some (tm, q') =>
      match fuel with
      | 0 => None
      | Datatypes.S fuel' =>
          run_due fuel' t (run_callback (due tm) (callback tm) (fst s, q'))
      end
  end.

(** Move the clock to [t]; the fuel is the number of pending timers, which
    is enough when callbacks set no timers. *)
Definition advance (t : Z) (s : S * queue) : option (S * queue) :=
  run_due (length (pending (snd s))) t s.

End Queue.

Arguments timer : clear implicits.
Arguments queue : clear implicits.

End Timers.

(* ===================================================================== *)
(** ** [debounce] *)
(* ===================================================================== *)

Module Debounce.
Import Timers.

Section Wrapper.

(** The type of the argument lists of the wrapped function. *)
Context {A : Type}.

(** The closure [later] of a call, with the arguments it captured. *)
Inductive cb := Later (args : A).

(** The variable [timeout] of the closure and the calls of [func] so far,
    each with the time of the call and its arguments.  [func] itself is
    opaque: a call of it is recorded and returns. *)
Record state := { timeout : option nat; invoked : list (Z * A) }.

Definition initial : state * queue cb :=
  ({| timeout := None; invoked := [] |}, Timers.empty).

(** [later]: [clearTimeout(timeout); func(...args)]. *)
Definition run_callback (now : Z) (c : cb) (s : state * queue cb)
  : state * queue cb :=
  match c with
  | Later args =>
      ({| timeout := timeout (fst s);
          invoked := invoked (fst s) ++ [(now, args)] |},
       clearTimeout (timeout (fst s)) (snd s))
  end.

(** A call [executedFunction(...args)] of the wrapper at time [now]:
    [clearTimeout(timeout); timeout = setTimeout(later, wait)]. *)
Definition executedFunction (wait : Z) (now : Z) (args : A)
    (s : state * queue cb) : state * queue cb :=
  let q1 := clearTimeout (timeout (fst s)) (snd s) in
  let '(id, q2) := setTimeout now (Later args) wait q1 in
  ({| timeout := Some id; invoked := invoked (fst s) |}, q2).

(** The wrapper called at the times and with the arguments of [calls],
    one after the other. *)
Fixpoint run_calls (wait : Z) (calls : list (Z * A)) (s : state * queue cb)
  : option (state * queue cb) :=
  match calls with
  | [] => Some s
  | (t, args) :: calls' =>
      match advance run_callback t s with
      | None => None
      | Some s' => run_calls wait calls' (executedFunction wait t args s')
      end
  end.

(** The calls of [func] up to time [horizon], from the state [s]. *)
Definition run_from (wait : Z) (calls : list (Z * A)) (horizon : Z)
    (s : state * queue cb) : option (list (Z * A)) :=
  match run_calls wait calls s with
  | None => None
  | Some s' =>
      option_map (fun s'' => invoked (fst s'')) (advance run_callback horizon s')
  end.

(** The calls of [func] by a fresh wrapper [debounce(func, wait)]. *)
Definition run (wait : Z) (calls : list (Z * A)) (horizon : Z)
  : option (list (Z * A)) :=
  run_from wait calls horizon initial.



End Wrapper.

Arguments cb : clear implicits.
Arguments state : clear implicits.

End Debounce.

(* ===================================================================== *)
(** ** [throttle] *)
(* ===================================================================== *)

Module Throttle.
Import Timers.

Section Wrapper.

Context {A : Type}.

(** The arrow function [() => inThrottle = false]. *)
Inductive cb := Release.

(** The variable [inThrottle] of the closure and the calls of [func] so
    far.  [func] itself is opaque: a call of it is recorded and returns,
    so that [inThrottle = true] is reached after it. *)
Record state := { inThrottle : bool; invoked : list (Z * A) }.

Definition initial : state * queue cb :=
  ({| inThrottle := false; invoked := [] |}, Timers.empty).

Definition run_callback (now : Z) (c : cb) (s : state * queue cb)
  : state * queue cb :=
  match c with
  | Release => ({| inThrottle := false; invoked := invoked (fst s) |}, snd s)
  end.

(** A call of the wrapper at time [now]. *)
Definition throttled (limit : Z) (now : Z) (args : A) (s : state * queue cb)
  : state * queue cb :=
  if negb (inThrottle (fst s)) then
    let '(_, q) := setTimeout now Release limit (snd s) in
    ({| inThrottle := true; invoked := invoked (fst s) ++ [(now, args)] |}, q)
  else s.

Fixpoint run_calls (limit : Z) (calls : list (Z * A)) (s : state * queue cb)
  : option (state * queue cb) :=
  match calls with
  | [] => Some s
  | (t, args) :: calls' =>
      match advance run_callback t s with
      | None => None
      | Some s' => run_calls limit calls' (throttled limit t args s')
      end
  end.

Definition run_from (limit : Z) (calls : list (Z * A)) (horizon : Z)
    (s : state * queue cb) : option (list (Z * A)) :=
  match run_calls limit calls s with
  | None => None
  | Some s' =>
      option_map (fun s'' => invoked (fst s'')) (advance run_callback horizon s')
  end.

(** The calls of [func] by a fresh wrapper [throttle(func, limit)], up to
    time [horizon]. *)
Definition run (limit : Z) (calls : list (Z * A)) (horizon : Z)
  : option (list (Z * A)) :=
  run_from limit calls horizon initial.



End Wrapper.

Arguments state : clear implicits.

End Throttle.

(* ===================================================================== *)
(** ** Auto-save: the batched writer and [loadFromLocalStorage] *)
(* ===================================================================== *)

Module Storage.
Import Timers.

(** [obj[key] = value] on an object kept as the list of its properties in
    insertion order. *)
Fixpoint obj_set (key : string) (value : jsstring)
    (obj : list (string * jsstring)) : list (string * jsstring) :=
  match obj with
  | [] => [(key, value)]
  | (k, v) :: obj' =>
      if String.eqb k key then (k, value) :: obj'
      else (k, v) :: obj_set key value obj'
  end.

(** [classList.add] and [classList.remove]. *)
Definition class_add (c : string) (cl : list string) : list string :=
  if existsb (String.eqb c) cl then cl else cl ++ [c].

Definition class_remove (c : string) (cl : list string) : list string :=
  List.filter (fun x => negb (String.eqb x c)) cl.

(** [String(n)] for an integer [n]. *)
Definition String_of_int (n : Z) : jsstring :=
  lit (DecimalString.NilZero.string_of_int (Z.to_int n)).

Definition autoSaveInterval : Z := 3000.

Inductive cb := FlushSaveData | HideStatus.

(** The part of the page the auto-save code reads and writes.
    [localStorage] is the key-value store of the browser; a write to it
    is taken to succeed. *)
Record Page := {
  editor_value : jsstring;
  editor_placeholder : jsstring;
  preview_innerHTML : jsstring;
  localStorage : gmap string jsstring;
  pendingSaveData : list (string * jsstring);
  saveTimeout : option nat;
  status_classes : list string;
  status_text : jsstring;
  clock : Z;
  timers : queue cb
}.

Section Page.

(** [marked.parse] of the markdown library. *)
Variable marked_parse : jsstring -> jsstring.

Definition set_editor (v : jsstring) (p : Page) : Page :=
  {| editor_value := v; editor_placeholder := editor_placeholder p;
     preview_innerHTML := preview_innerHTML p; localStorage := localStorage p;
     pendingSaveData := pendingSaveData p; saveTimeout := saveTimeout p;
     status_classes := status_classes p; status_text := status_text p;
     clock := clock p; timers := timers p |}.

Definition showAutoSaveStatus (status : string) (p : Page) : Page :=
  let cl := class_remove "saved" (class_remove "saving" (status_classes p)) in
  let '(cl, txt) :=
    if String.eqb status "saving"
    then (class_add "saving" cl, [27491; 22312; 20445; 23384; 46; 46; 46]%N)
    else if String.eqb status "saved"
         then (class_add "saved" cl, [24050; 33258; 21160; 20445; 23384]%N)
         else (cl, status_text p) in
  let '(_, q) := setTimeout (clock p) HideStatus 2000 (timers p) in
  {| editor_value := editor_value p; editor_placeholder := editor_placeholder p;
     preview_innerHTML := preview_innerHTML p; localStorage := localStorage p;
     pendingSaveData := pendingSaveData p; saveTimeout := saveTimeout p;
     status_classes := class_add "show" cl; status_text := txt;
     clock := clock p; timers := q |}.

(** [Object.entries(pendingSaveData).forEach(([key, value]) =>
    localStorage.setItem(key, value))]. *)
Definition write_entries (entries : list (string * jsstring))
    (ls : gmap string jsstring) : gmap string jsstring :=
  fold_left (fun m kv => <[fst kv := snd kv]> m) entries ls.

Definition flushSaveData (p : Page) : Page :=
  if length (pendingSaveData p) =? 0 then p
  else
    showAutoSaveStatus "saved"
      {| editor_value := editor_value p;
         editor_placeholder := editor_placeholder p;
         preview_innerHTML := preview_innerHTML p;
         localStorage := write_entries (pendingSaveData p) (localStorage p);
         pendingSaveData := [];
         saveTimeout := saveTimeout p;
         status_classes := status_classes p; status_text := status_text p;
         clock := clock p; timers := timers p |}.

Definition queueSaveData (key : string) (value : jsstring) (p : Page) : Page :=
  let q1 := match saveTimeout p with
            | Some id => clearTimeout (Some id) (timers p)
            | None => timers p
            end in
  let '(id, q2) := setTimeout (clock p) FlushSaveData autoSaveInterval q1 in
  {| editor_value := editor_value p; editor_placeholder := editor_placeholder p;
     preview_innerHTML := preview_innerHTML p; localStorage := localStorage p;
     pendingSaveData := obj_set key value (pendingSaveData p);
     saveTimeout := Some id;
     status_classes := status_classes p; status_text := status_text p;
     clock := clock p; timers := q2 |}.

Definition saveToLocalStorage (p : Page) : Page :=
  let p1 := queueSaveData "editorContent" (editor_value p) p in
  queueSaveData "editorLastSave" (String_of_int (clock p1)) p1.

Definition loadFromLocalStorage (p : Page) : Page :=
  let savedContent := localStorage p !! "editorContent" in
  let hasVisited := localStorage p !! "hasVisited" in
  let with_content (v html : jsstring) (ls : gmap string jsstring) (p : Page) :=
    {| editor_value := v; editor_placeholder := editor_placeholder p;
       preview_innerHTML := html; localStorage := ls;
       pendingSaveData := pendingSaveData p; saveTimeout := saveTimeout p;
       status_classes := status_classes p; status_text := status_text p;
       clock := clock p; timers := timers p |} in
  match savedContent with
  | Some c =>
      if truthy c && truthy (trim c)
      then showAutoSaveStatus "saved"
             (with_content c (marked_parse c) (localStorage p) p)
      else if negb (match hasVisited with Some h => truthy h | None => false end)
      then with_content (editor_placeholder p)
             (marked_parse (editor_placeholder p))
             (<["hasVisited" := lit "true"]> (localStorage p)) p
      else with_content [] [] (localStorage p) p
  | None =>
      if negb (match hasVisited with Some h => truthy h | None => false end)
      then with_content (editor_placeholder p)
             (marked_parse (editor_placeholder p))
             (<["hasVisited" := lit "true"]> (localStorage p)) p
      else with_content [] [] (localStorage p) p
  end.

End Page.

(** *** The timers of the page *)

Definition set_clock (t : Z) (p : Page) : Page :=
  {| editor_value := editor_value p; editor_placeholder := editor_placeholder p;
     preview_innerHTML := preview_innerHTML p; localStorage := localStorage p;
     pendingSaveData := pendingSaveData p; saveTimeout := saveTimeout p;
     status_classes := status_classes p; status_text := status_text p;
     clock := t; timers := timers p |}.

Definition set_timers (q : queue cb) (p : Page) : Page :=
  {| editor_value := editor_value p; editor_placeholder := editor_placeholder p;
     preview_innerHTML := preview_innerHTML p; localStorage := localStorage p;
     pendingSaveData := pendingSaveData p; saveTimeout := saveTimeout p;
     status_classes := status_classes p; status_text := status_text p;
     clock := clock p; timers := q |}.

(** The arrow function of [showAutoSaveStatus]:
    [autoSaveStatus.classList.remove('show')]. *)
Definition hideStatus (p : Page) : Page :=
  {| editor_value := editor_value p; editor_placeholder := editor_placeholder p;
     preview_innerHTML := preview_innerHTML p; localStorage := localStorage p;
     pendingSaveData := pendingSaveData p; saveTimeout := saveTimeout p;
     status_classes := class_remove "show" (status_classes p);
     status_text := status_text p;
     clock := clock p; timers := timers p |}.

(** A timer of the page runs at the time [now]; the queue, from which it
    has been taken, is the page's. *)
Definition run_callback (now : Z) (c : cb) (s : Page * queue cb)
  : Page * queue cb :=
  let p := set_timers (snd s) (set_clock now (fst s)) in
  let p' := match c with
            | FlushSaveData => flushSaveData p
            | HideStatus => hideStatus p
            end in
  (p', timers p').

(** The clock of the page moves to [t]: the timers due by then run, at
    most [fuel] of them ([None] when more are due). *)
Definition advance_to (fuel : nat) (t : Z) (p : Page) : option Page :=
  option_map (fun s => set_clock t (fst s))
    (Timers.run_due run_callback fuel t (p, timers p)).

(** No timer is pending and nothing waits in the buffer. *)
Definition quiet (p : Page) : Prop :=
  pending (timers p) = [] /\ pendingSaveData p = [].

(** Nothing is saved under [editorContent], or only white space. *)
Definition no_saved_content (p : Page) : Prop :=
  match localStorage p !! "editorContent" with
  | None => True
  | Some c => ~ has_non_white_space c
  end.

(** A page that was never saved, with [# Hi] in the editor. *)
Definition fresh_page : Page :=
  {| editor_value := lit "# Hi";
     editor_placeholder := lit "welcome";
     preview_innerHTML := [];
     localStorage := ∅;
     pendingSaveData := [];
     saveTimeout := None;
     status_classes := [];
     status_text := [];
     clock := 1700000000000;
     timers := Timers.empty |}.

End Storage.

(* ===================================================================== *)
(** ** Colour converter: [hexToRgb] *)
(* ===================================================================== *)

Module Color.
Import RegExp.

Definition hash : N := 35.

(** The members of the class [[a-f\d]]. *)
Definition hex_class : list N :=
  [97; 98; 99; 100; 101; 102; 48; 49; 50; 51; 52; 53; 54; 55; 56; 57]%N.

(** The value of a digit of [parseInt] in radix 16. *)
Definition digit16 (c : N) : option Z :=
  if in_range 48 57 c then Some (Z.of_N c - 48)%Z
  else if in_range 97 102 c then Some (Z.of_N c - 87)%Z
  else if in_range 65 70 c then Some (Z.of_N c - 55)%Z
  else None.

(** The longest prefix of digits, read in radix 16; [None] without a
    digit. *)
Fixpoint read_digits16 (acc : option Z) (s : jsstring) : option Z :=
  match s with
  | [] => acc
  | c :: r =>
      match digit16 c with
      | Some d =>
          read_digits16
            (Some (16 * match acc with Some a => a | None => 0 end + d)%Z) r
      | None => acc
      end
  end.

(** [parseInt(s, 16)]: leading white space, a sign and a [0x] prefix are
    skipped; [None] is [NaN].  The result is exact below 2^53. *)
Definition parseInt16 (s : jsstring) : option Z :=
  let s1 := trimStart s in
  let '(sign, s2) :=
    match s1 with
    | c :: r => if (c =? 45)%N then ((-1)%Z, r)
                else if (c =? 43)%N then (1%Z, r) else (1%Z, s1)
    | [] => (1%Z, s1)
    end in
  let s3 :=
    match s2 with
    | z :: x :: r =>
        if ((z =? 48) && ((x =? 120) || (x =? 88)))%N then r else s2
    | _ => s2
    end in
  option_map (Z.mul sign) (read_digits16 None s3).

(** The object [{r, g, b}]; a component is [None] when it is [NaN]. *)
Record rgb := { r : option Z; g : option Z; b : option Z }.

Section IgnoreCase.

Variable upper_nonascii : N -> jsstring.

(** A character matches a class under the [i] flag when its canonical
    form is that of a member. *)
Definition class_matches (members : list N) (c : N) : bool :=
  existsb (fun m => (Canonicalize upper_nonascii m
                     =? Canonicalize upper_nonascii c)%N) members.

(** The three groups, then the end of the input. *)
Definition match_groups (s : jsstring) : option (jsstring * jsstring * jsstring) :=
  match s with
  | [c1; c2; c3; c4; c5; c6] =>
      if forallb (class_matches hex_class) s
      then Some ([c1; c2], [c3; c4], [c5; c6])
      else None
  | _ => None
  end.

(** [/^#?([a-f\d]{2})([a-f\d]{2})([a-f\d]{2})$/i.exec(hex)]: the
    optional [#] is taken when it is there, and given back when the rest
    does not match after it. *)
Definition hex_exec (hex : jsstring) : option (jsstring * jsstring * jsstring) :=
  match hex with
  | c :: rest =>
      if (c =? hash)%N then
        match match_groups rest with
        | Some gs => Some gs
        | None => match_groups hex
        end
      else match_groups hex
  | [] => match_groups hex
  end.

Definition hexToRgb (hex : jsstring) : option rgb :=
  match hex_exec hex with
  | Some (g1, g2, g3) =>
      Some {| r := parseInt16 g1; g := parseInt16 g2; b := parseInt16 g3 |}
  | None => None
  end.

End IgnoreCase.

(** A hexadecimal digit. *)
Definition is_hex_digit (c : N) : bool :=
  in_range 48 57 c || in_range 97 102 c || in_range 65 70 c.

(** The value of a hexadecimal digit. *)
Definition hex_value (c : N) : Z :=
  if in_range 48 57 c then (Z.of_N c - 48)%Z
  else if in_range 97 102 c then (Z.of_N c - 97 + 10)%Z
  else (Z.of_N c - 65 + 10)%Z.

(** A two-digit group read as a base-16 integer. *)
Definition base16_pair (hi lo : N) : Z := (16 * hex_value hi + hex_value lo)%Z.

(** The hexadecimal digits, listed. *)
Definition hex_digits : list N :=
  [48; 49; 50; 51; 52; 53; 54; 55; 56; 57; 97; 98; 99; 100; 101; 102;
   65; 66; 67; 68; 69; 70]%N.

(** Equality of two results of [parseInt]. *)
Definition option_Z_eqb (a b : option Z) : bool :=
  match a, b with
  | Some x, Some y => (x =? y)%Z
  | None, None => true
  | _, _ => false
  end.

(** Exactly six hexadecimal digits, with or without a [#] in front. *)
Definition well_formed (s : jsstring) (ds : list N) : Prop :=
  length ds = 6 /\ forallb is_hex_digit ds = true /\ (s = ds \/ s = hash :: ds).

End Color.

(* ===================================================================== *)
(** ** Unit converter *)
(* ===================================================================== *)

(** Numbers are rationals here: the conversion formulas in exact
    arithmetic, before [toFixed]. *)
Module Converter.

Local Open Scope Q_scope.

(** A value of the table: a number, or a string as in the temperature
    entry. *)
Inductive entry := Num (q : Q) | Str (s : string).

Definition conversionRates : list (string * list (string * entry)) :=
  [ ("length"%string,
     [ ("m"%string, Num 1); ("km"%string, Num (1 # 1000));
       ("cm"%string, Num 100); ("mm"%string, Num 1000);
       ("ft"%string, Num (328084 # 100000));
       ("in"%string, Num (393701 # 10000)) ]);
    ("weight"%string,
     [ ("kg"%string, Num 1); ("g"%string, Num 1000);
       ("mg"%string, Num 1000000); ("lb"%string, Num (220462 # 100000));
       ("oz"%string, Num (3527396 # 100000)) ]);
    ("temperature"%string,
     [ ("celsius"%string, Str "c"); ("fahrenheit"%string, Str "f");
       ("kelvin"%string, Str "k") ]) ].

(** Property lookup [obj[key]]. *)
Fixpoint get {V : Type} (key : string) (obj : list (string * V)) : option V :=
  match obj with
  | [] => None
  | (k, v) :: obj' => if String.eqb k key then Some v else get key obj'
  end.

(** [convertTemperature]; [None] is a result that is not a number. *)
Definition convertTemperature (value : Q) (from to : string) : option Q :=
  if String.eqb from to then Some value
  else
    let celsius :=
      if String.eqb from "celsius" then Some value
      else if String.eqb from "fahrenheit" then Some ((value - 32) * 5 / 9)
      else if String.eqb from "kelvin" then Some (value - (27315 # 100))
      else None in
    if String.eqb to "celsius" then celsius
    else if String.eqb to "fahrenheit"
         then option_map (fun c => c * 9 / 5 + 32) celsius
    else if String.eqb to "kelvin"
         then option_map (fun c => c + (27315 # 100)) celsius
    else None.

(** The number [convert] formats, for [currentConverterType = type] and
    the selected units; [None] is an exception or a result that is not a
    finite number. *)
Definition convert (type from to : string) (value : Q) : option Q :=
  if String.eqb type "temperature" then convertTemperature value from to
  else
    match get type conversionRates with
    | None => None
    | Some rates =>
        match get from rates, get to rates with
        | Some (Num a), Some (Num b) =>
            if Qeq_bool a 0 then None else Some (value / a * b)
        | _, _ => None
        end
    end.

(** The units of a category: the keys of its table. *)
Definition units (type : string) : list string :=
  match get type conversionRates with
  | Some rates => map fst rates
  | None => []
  end.

Definition categories : list string :=
  ["length"%string; "weight"%string; "temperature"%string].

End Converter.

(* ===================================================================== *)
(** ** Calculator: [calculate] *)
(* ===================================================================== *)

(** Numbers are binary64 floats, as in the script. *)
Module Calculator.

(** What [result] can hold at the end of the [switch]. *)
Inductive value := VNumber (x : float) | VString (s : jsstring) | VUndefined.

Record Calc := {
  currentValue : jsstring;
  previousValue : jsstring;
  operator : string;
  shouldResetDisplay : bool
}.

Section Builtins.

Variable parseFloat : jsstring -> float.

(** [String(x)] for a number [x]. *)
Variable Number_toString : float -> jsstring.

Definition String_ (v : value) : jsstring :=
  match v with
  | VNumber x => Number_toString x
  | VString s => s
  | VUndefined => lit "undefined"
  end.

Definition calculate (c : Calc) : Calc :=
  let prev := parseFloat (previousValue c) in
  let current := parseFloat (currentValue c) in
  let result :=
    if String.eqb (operator c) "add" then VNumber (prev + current)%float
    else if String.eqb (operator c) "subtract" then VNumber (prev - current)%float
    else if String.eqb (operator c) "multiply" then VNumber (prev * current)%float
    else if String.eqb (operator c) "divide" then
      if negb (PrimFloat.eqb current 0%float)
      then VNumber (prev / current)%float
      else VString (lit "Error")
    else VUndefined in
  {| currentValue := String_ result; previousValue := previousValue c;
     operator := operator c; shouldResetDisplay := true |}.

End Builtins.

End Calculator.

(* ===================================================================== *)
(** ** Password generator *)
(* ===================================================================== *)

Module Password.

Definition uppercase_chars : jsstring := lit "ABCDEFGHIJKLMNOPQRSTUVWXYZ".
Definition lowercase_chars : jsstring := lit "abcdefghijklmnopqrstuvwxyz".
Definition number_chars : jsstring := lit "0123456789".
Definition symbol_chars : jsstring := lit "!@#$%^&*()_+-=[]{}|;:,.<>?".

(** The message shown when no character type is checked. *)
Definition no_type_message : jsstring :=
  [35831; 33267; 23569; 36873; 25321; 19968; 31181; 23383; 31526; 31867;
   22411]%N.

(** [s.charAt(i)]: the empty string outside the string. *)
Definition charAt (i : Z) (s : jsstring) : jsstring :=
  if (i <? 0)%Z then []
  else match nth_error s (Z.to_nat i) with
       | Some c => [c]
       | None => []
       end.

Definition chars_of (uppercase lowercase numbers symbols : bool) : jsstring :=
  (if uppercase then uppercase_chars else [])
    ++ (if lowercase then lowercase_chars else [])
    ++ (if numbers then number_chars else [])
    ++ (if symbols then symbol_chars else []).

Section Random.

(** [random i] is what the call number [i] of [Math.random()] returns, a
    number from 0 up to but not including 1 (a rational here). *)
Variable random : nat -> Q.

(** The [for] loop: [todo] iterations are left, [i] have been made. *)
Fixpoint fill (todo i : nat) (chars password : jsstring) : jsstring :=
  match todo with
  | 0 => password
  | S todo' =>
      fill todo' (S i) chars
        (password
           ++ charAt (Qfloor (random i * inject_Z (Z.of_nat (length chars))))
                chars)
  end.

(** [generatePassword] with [parseInt(passwordLength.value) = length] and
    the four check boxes; the result is [passwordOutput.value]. *)
Definition generatePassword (length : Z)
    (uppercase lowercase numbers symbols : bool) : jsstring :=
  let chars := chars_of uppercase lowercase numbers symbols in
  match chars with
  | [] => no_type_message
  | _ => fill (Z.to_nat length) 0 chars []
  end.

End Random.

End Password.

(* ===================================================================== *)
(** ** The editor: quick-edit insertion and the line and column figure *)
(* ===================================================================== *)

Module Editing.

(** The text area: its value and its selection, for which the browser
    keeps [selectionStart <= selectionEnd <= value.length]. *)
Record Editor := {
  value : jsstring;
  selectionStart : nat;
  selectionEnd : nat
}.

(** [a || b] on strings. *)
Definition or_else (a b : jsstring) : jsstring :=
  match a with [] => b | _ => a end.

Definition table_text : jsstring :=
  [124; 32; 21015; 49; 32; 124; 32; 21015; 50; 32; 124; 32; 21015; 51; 32;
   124; 10; 124; 45; 45; 45; 45; 45; 124; 45; 45; 45; 45; 45; 124; 45; 45;
   45; 45; 45; 124; 10; 124; 32; 20869; 23481; 32; 124; 32; 20869; 23481;
   32; 124; 32; 20869; 23481; 32; 124; 10; 124; 32; 20869; 23481; 32; 124;
   32; 20869; 23481; 32; 124; 32; 20869; 23481; 32; 124]%N.

(** The [switch] of [insertMarkdown]: [newText] and [cursorOffset] for
    an action and the selected text.  An action the switch does not list
    leaves the empty text and the offset 0. *)
Definition markup (action : string) (selectedText : jsstring)
  : jsstring * Z :=
  let len (s : jsstring) := Z.of_nat (length s) in
  let sel := truthy selectedText in
  if String.eqb action "bold" then
    let t := lit "**" ++ or_else selectedText [31895; 20307; 25991; 26412]%N
               ++ lit "**" in
    (t, if sel then len t else 2%Z)
  else if String.eqb action "italic" then
    let t := lit "*" ++ or_else selectedText [26012; 20307; 25991; 26412]%N
               ++ lit "*" in
    (t, if sel then len t else 1%Z)
  else if String.eqb action "strikethrough" then
    let t := lit "~~"
               ++ or_else selectedText [21024; 38500; 32447; 25991; 26412]%N
               ++ lit "~~" in
    (t, if sel then len t else 2%Z)
  else if String.eqb action "h1" then
    let t := lit "# " ++ or_else selectedText [26631; 39064; 49]%N in
    (t, len t)
  else if String.eqb action "h2" then
    let t := lit "## " ++ or_else selectedText [26631; 39064; 50]%N in
    (t, len t)
  else if String.eqb action "h3" then
    let t := lit "### " ++ or_else selectedText [26631; 39064; 51]%N in
    (t, len t)
  else if String.eqb action "ul" then
    let t := lit "- " ++ or_else selectedText [21015; 34920; 39033]%N in
    (t, len t)
  else if String.eqb action "ol" then
    let t := lit "1. " ++ or_else selectedText [21015; 34920; 39033]%N in
    (t, len t)
  else if String.eqb action "checkbox" then
    let t := lit "- [ ] "
               ++ or_else selectedText [24453; 21150; 20107; 39033]%N in
    (t, len t)
  else if String.eqb action "code" then
    let t := [96%N] ++ or_else selectedText [20195; 30721]%N ++ [96%N] in
    (t, if sel then len t else 1%Z)
  else if String.eqb action "codeblock" then
    let t := [96; 96; 96]%N ++ (if sel then [] else lit "javascript")
               ++ [10%N]
               ++ or_else selectedText [20195; 30721; 20869; 23481]%N
               ++ [10; 96; 96; 96]%N in
    (t, (len t - 4)%Z)
  else if String.eqb action "quote" then
    let t := lit "> " ++ or_else selectedText [24341; 29992; 20869; 23481]%N in
    (t, len t)
  else if String.eqb action "link" then
    let t := lit "[" ++ or_else selectedText [38142; 25509; 25991; 26412]%N
               ++ lit "](url)" in
    (t, if sel then (len t - 4)%Z else 1%Z)
  else if String.eqb action "image" then
    let t := lit "![" ++ or_else selectedText [22270; 29255; 25551; 36848]%N
               ++ lit "](image_url)" in
    (t, if sel then (len t - 9)%Z else 2%Z)
  else if String.eqb action "table" then
    (table_text, len table_text)
  else if String.eqb action "hr" then
    ([10; 45; 45; 45; 10]%N, 5%Z)
  else ([], 0%Z).

(** The position [insertMarkdown] passes to [setSelectionRange]. *)
Definition newCursorPos (action : string) (e : Editor) : Z :=
  let selectedText := substring (selectionStart e) (selectionEnd e) (value e) in
  (Z.of_nat (selectionStart e) + snd (markup action selectedText))%Z.

(** [setSelectionRange(p, p)]: a position is clamped to the text. *)
Definition setSelectionRange (p : Z) (v : jsstring) (e : Editor) : Editor :=
  let q := Nat.min (Z.to_nat p) (length v) in
  {| value := v; selectionStart := q; selectionEnd := q |}.

Definition insertMarkdown (action : string) (e : Editor) : Editor :=
  let start := selectionStart e in
  let end_ := selectionEnd e in
  let selectedText := substring start end_ (value e) in
  let beforeText := substring 0 start (value e) in
  let afterText := skipn end_ (value e) in
  let '(newText, cursorOffset) := markup action selectedText in
  setSelectionRange (Z.of_nat start + cursorOffset)
    (beforeText ++ newText ++ afterText) e.

(** The Tab key in the editor: four spaces take the place of the
    selection. *)
Definition insertTab (e : Editor) : Editor :=
  let start := selectionStart e in
  setSelectionRange (Z.of_nat start + 4)
    (substring 0 start (value e) ++ lit "    " ++ skipn (selectionEnd e) (value e))
    e.

(** [s.split(sep)] for a separator of one character. *)
Fixpoint split_char (sep : N) (s : jsstring) : list jsstring :=
  match s with
  | [] => [[]]
  | c :: r =>
      if (c =? sep)%N then [] :: split_char sep r
      else match split_char sep r with
           | h :: t => (c :: h) :: t
           | [] => [[c]]
           end
  end.

Definition newline : N := 10.

(** [updateLineColumnInfo]: the line and the column it shows. *)
Definition updateLineColumnInfo (e : Editor) : nat * nat :=
  let textBeforeCursor := substring 0 (selectionStart e) (value e) in
  let lines := split_char newline textBeforeCursor in
  (length lines, length (List.last lines []) + 1).

(** [t] has [sel] in it. *)
Definition contains (sel t : jsstring) : Prop :=
  exists pre post, t = pre ++ sel ++ post.

(** The action is one that wraps the selected text. *)
Definition wraps_selection (action : string) : bool :=
  existsb (String.eqb action)
    ["bold"; "italic"; "strikethrough"; "h1"; "h2"; "h3"; "ul"; "ol";
     "checkbox"; "code"; "codeblock"; "quote"; "link"; "image"]%string.

End Editing.

(* ===================================================================== *)
(** ** Text statistics: the word count of the status bar and the text
       analyzer *)
(* ===================================================================== *)

Module TextStats.
Import Editing.

(** [p => p.trim()] and [line => line.trim().length > 0] as filters: the
    string has something left after trimming. *)
Definition not_blank (s : jsstring) : bool := truthy (trim s).

(** The two numbers of the status bar: [content.length] and the number
    of lines that are not blank. *)
Definition wordCount (content : jsstring) : nat * nat :=
  (length content, length (List.filter not_blank (split_char newline content))).

Definition cons_head (c : N) (pieces : list jsstring) : list jsstring :=
  match pieces with
  | h :: t => (c :: h) :: t
  | [] => [[c]]
  end.

(** [s.split(/\s+/)]: the pieces between the runs of white space, with
    an empty piece before a run at the start and after a run at the end.
    [in_run] says that the character before was white space. *)
Fixpoint split_spaces (in_run : bool) (s : jsstring) : list jsstring :=
  match s with
  | [] => [[]]
  | c :: r =>
      if is_white_space c
      then if in_run then split_spaces true r else [] :: split_spaces true r
      else cons_head c (split_spaces false r)
  end.

(** [analyzeText]: the figures for characters, words and lines. *)
Definition statChars (text : jsstring) : nat := length text.

Definition statWords (text : jsstring) : nat :=
  let words := List.filter (fun w => 0 <? length w)
                 (split_spaces false (trim text)) in
  match trim text with
  | [] => 0
  | _ => length words
  end.

Definition statLines (text : jsstring) : nat :=
  let lines := List.filter (fun l => 0 <? length (trim l))
                 (split_char newline text) in
  match trim text with
  | [] => 0
  | _ => length lines
  end.

(** The number of pieces that are not empty. *)
Definition count_words (pieces : list jsstring) : nat :=
  length (List.filter (fun w => 0 <? length w) pieces).

(** The number of places where a word starts: a character that is not
    white space, at the start of the text or after white space. *)
Fixpoint word_starts (after_space : bool) (s : jsstring) : nat :=
  match s with
  | [] => 0
  | c :: r =>
      if is_white_space c then word_starts true r
      else (if after_space then 1 else 0) + word_starts false r
  end.

End TextStats.

(* ===================================================================== *)
(** ** Calculator: the keys *)
(* ===================================================================== *)

Module CalculatorKeys.
Import Calculator.

(** The calculator when the page is loaded. *)
Definition initial : Calc :=
  {| currentValue := lit "0"; previousValue := []; operator := "";
     shouldResetDisplay := false |}.

Definition dot : N := 46.

(** [handleNumber(num)]. *)
Definition handleNumber (num : jsstring) (c : Calc) : Calc :=
  if shouldResetDisplay c then
    {| currentValue := num; previousValue := previousValue c;
       operator := operator c; shouldResetDisplay := false |}
  else
    {| currentValue := if decide (currentValue c = lit "0") then num
                       else currentValue c ++ num;
       previousValue := previousValue c;
       operator := operator c; shouldResetDisplay := false |}.

Section Builtins.

Variable parseFloat : jsstring -> float.
Variable Number_toString : float -> jsstring.

Definition with_current (v : jsstring) (c : Calc) : Calc :=
  {| currentValue := v; previousValue := previousValue c;
     operator := operator c; shouldResetDisplay := shouldResetDisplay c |}.

(** A pending operation: [previousValue !== '' && operator !== '']. *)
Definition pending (c : Calc) : bool :=
  truthy (previousValue c) && negb (String.eqb (operator c) "").

(** [handleAction(action)]. *)
Definition handleAction (action : string) (c : Calc) : Calc :=
  if String.eqb action "clear" then
    {| currentValue := lit "0"; previousValue := []; operator := "";
       shouldResetDisplay := shouldResetDisplay c |}
  else if String.eqb action "backspace" then
    with_current (if 1 <? length (currentValue c)
                  then firstn (length (currentValue c) - 1) (currentValue c)
                  else lit "0") c
  else if String.eqb action "percent" then
    with_current
      (Number_toString (parseFloat (currentValue c) / 100)%float) c
  else if String.eqb action "decimal" then
    if negb (existsb (N.eqb dot) (currentValue c))
    then with_current (currentValue c ++ [dot]) c
    else c
  else if String.eqb action "add" || String.eqb action "subtract"
          || String.eqb action "multiply" || String.eqb action "divide" then
    let c1 := if pending c then calculate parseFloat Number_toString c else c in
    {| currentValue := currentValue c1; previousValue := currentValue c1;
       operator := action; shouldResetDisplay := true |}
  else if String.eqb action "equals" then
    if pending c then
      let c1 := calculate parseFloat Number_toString c in
      {| currentValue := currentValue c1; previousValue := [];
         operator := ""; shouldResetDisplay := shouldResetDisplay c1 |}
    else c
  else c.

(** A click on a button or a key: a number or an action. *)
Inductive key := Number (num : jsstring) | Action (action : string).

Definition press (k : key) (c : Calc) : Calc :=
  match k with
  | Number num => handleNumber num c
  | Action action => handleAction action c
  end.

Definition press_all (keys : list key) (c : Calc) : Calc :=
  fold_left (fun c k => press k c) keys c.

(** What [calculate] computes for an operator and two numbers. *)
Definition apply_operator (op : string) (prev current : float) : value :=
  if String.eqb op "add" then VNumber (prev + current)%float
  else if String.eqb op "subtract" then VNumber (prev - current)%float
  else if String.eqb op "multiply" then VNumber (prev * current)%float
  else if String.eqb op "divide" then
    if PrimFloat.eqb current 0%float then VString (lit "Error")
    else VNumber (prev / current)%float
  else VUndefined.

End Builtins.

(** The digits typed so far as the display shows them: without the
    zeros in front, and [0] when nothing else is left. *)
Fixpoint strip_zeros (ds : jsstring) : jsstring :=
  match ds with
  | [] => []
  | d :: r => if (d =? 48)%N then strip_zeros r else ds
  end.

Definition shown (ds : jsstring) : jsstring :=
  match strip_zeros ds with
  | [] => lit "0"
  | r => r
  end.

(** The number of decimal points of a string. *)
Definition dots (s : jsstring) : nat := count_occ N.eq_dec s dot.

(** The display is in order: not empty, with one decimal point at
    most. *)
Definition display_ok (c : Calc) : Prop :=
  currentValue c <> [] /\ dots (currentValue c) <= 1.

(** A number key of the page: one decimal digit. *)
Definition digit_key (k : key) : Prop :=
  match k with
  | Number num => exists d, num = [d] /\ in_range 48 57 d = true
  | Action _ => True
  end.

Definition is_operator (op : string) : Prop :=
  op = "add"%string \/ op = "subtract"%string \/ op = "multiply"%string
  \/ op = "divide"%string.

End CalculatorKeys.

(* ===================================================================== *)
(** ** The to-do list *)
(* ===================================================================== *)

Module Todos.

(** A to-do item.  [id] is the string form of its [id] property when it
    has one; the items [addTodo] makes have none. *)
Record todo := { text : jsstring; completed : bool; id : option jsstring }.

(** What a click handler reads of an element: its classes and its
    [data-] attributes. *)
Record element := {
  classList : list string;
  dataset : list (string * jsstring)
}.

Definition contains_class (c : string) (el : element) : bool :=
  existsb (String.eqb c) (classList el).

(** [el.dataset[key]]; [None] is [undefined]. *)
Fixpoint dataset_get (key : string) (d : list (string * jsstring))
  : option jsstring :=
  match d with
  | [] => None
  | (k, v) :: d' => if String.eqb k key then Some v else dataset_get key d'
  end.

(** [String(todo.id)], as the assignment to [dataset.id] stores it. *)
Definition id_string (t : todo) : jsstring :=
  match id t with
  | Some s => s
  | None => lit "undefined"
  end.

(** The elements [renderTodos] puts into the list for one item: the item
    itself, its check box, its text and its delete button. *)
Definition render_item (t : todo) : list element :=
  [ {| classList := if completed t then ["todo-item"; "completed"]%string
                    else ["todo-item"]%string;
       dataset := [] |};
    {| classList := ["todo-checkbox"]%string;
       dataset := [("id"%string, id_string t)] |};
    {| classList := ["todo-text"]%string; dataset := [] |};
    {| classList := ["todo-delete"]%string;
       dataset := [("id"%string, id_string t)] |} ].

(** The elements of the list after [renderTodos]. *)
Definition renderTodos (todos : list todo) : list element :=
  match todos with
  | [] =>
      [ {| classList := ["empty-state"]%string; dataset := [] |};
        {| classList := ["empty-state-icon"]%string; dataset := [] |};
        {| classList := ["empty-state-text"]%string; dataset := [] |};
        {| classList := ["empty-state-hint"]%string; dataset := [] |} ]
  | _ => flat_map render_item todos
  end.

(** [updateTodoCount]: the number shown. *)
Definition activeCount (todos : list todo) : nat :=
  length (List.filter (fun t => negb (completed t)) todos).

(** [addTodo] with [todoInput.value = input]: the list and the input
    afterwards. *)
Definition addTodo (input : jsstring) (todos : list todo)
  : list todo * jsstring :=
  let text := trim input in
  if truthy text
  then ({| text := text; completed := false; id := None |} :: todos, [])
  else (todos, input).

(** The clear-completed button. *)
Definition clearCompleted (todos : list todo) : list todo :=
  List.filter (fun t => negb (completed t)) todos.

(** A string of decimal digits without a zero in front, as a number: the
    strings that are array indices. *)
Fixpoint digits_value (acc : nat) (s : jsstring) : option nat :=
  match s with
  | [] => Some acc
  | c :: r =>
      if in_range 48 57 c
      then digits_value (10 * acc + (N.to_nat c - 48)) r
      else None
  end.

Definition array_index (s : jsstring) : option nat :=
  match s with
  | [] => None
  | [c] => digits_value 0 s
  | c :: _ => if (c =? 48)%N then None else digits_value 0 s
  end.

(** What a click does. *)
Inductive outcome :=
| Done (todos : list todo)
| Throws
| NotModelled.

Definition toggle (t : todo) : todo :=
  {| text := text t; completed := negb (completed t); id := id t |}.

(** The click handler of the list with [e.target = target].  The index
    is [target.dataset.index].  [todos[index]] is [undefined] for an
    index that is [undefined] or no array index, and reading
    [.completed] of it throws; [splice(index, 1)] starts at 0 for an
    [undefined] index.  A [splice] at an index string that is not a plain
    array index is not modelled. *)
Definition on_click (target : element) (todos : list todo) : outcome :=
  let index := dataset_get "index" (dataset target) in
  if contains_class "todo-checkbox" target then
    match index with
    | None => Throws
    | Some s =>
        match array_index s with
        | None => Throws
        | Some i =>
            match nth_error todos i with
            | None => Throws
            | Some t => Done (firstn i todos ++ toggle t :: skipn (S i) todos)
            end
        end
    end
  else if contains_class "todo-delete" target then
    match index with
    | None => Done (skipn 1 todos)
    | Some s =>
        match array_index s with
        | None => NotModelled
        | Some i => Done (firstn i todos ++ skipn (S i) todos)
        end
    end
  else Done todos.

End Todos.

(* ===================================================================== *)
(** ** Sticky notes *)
(* ===================================================================== *)

Module Notes.

(** A note: the [id] is the time at which it was made. *)
Record note := {
  id : Z;
  text : jsstring;
  position : float * float;
  size : Z * Z
}.

(** [addNote] at the time [now], with the corner of the container at
    [(left, top)]. *)
Definition addNote (now : Z) (left top : float) (notes : list note)
  : list note :=
  {| id := now; text := [];
     position := ((left + 20)%float, (top + 20)%float);
     size := (200%Z, 150%Z) |} :: notes.

(** [note.id] as [dataset.id] holds it. *)
Definition dataset_id (n : note) : jsstring := Storage.String_of_int (id n).

(** The number a string of an integer stands for; [None] for any other
    string. *)
Definition int_of_string (s : jsstring) : option Z :=
  if forallb (fun c => (c <? 256)%N) s
  then option_map Z.of_int
         (DecimalString.NilZero.int_of_string
            (string_of_list_ascii (map ascii_of_N s)))
  else None.

(** [n.id == id] for a number and a string: the string is read as a
    number first. *)
Definition loose_eq (n : Z) (s : jsstring) : bool :=
  match int_of_string s with
  | Some m => (n =? m)%Z
  | None => false
  end.

(** The click on a note's delete button, whose [dataset.id] is
    [clicked]. *)
Definition deleteNote (clicked : jsstring) (notes : list note) : list note :=
  List.filter (fun n => negb (loose_eq (id n) clicked)) notes.

(** The input handler of a note's text area: the first note with the id
    gets the text. *)
Fixpoint saveNoteText (clicked value : jsstring) (notes : list note)
  : list note :=
  match notes with
  | [] => []
  | n :: rest =>
      if loose_eq (id n) clicked
      then {| id := id n; text := value; position := position n;
              size := size n |} :: rest
      else n :: saveNoteText clicked value rest
  end.

End Notes.

(* ===================================================================== *)
(** * Sample inputs of the concrete runs *)
(* ===================================================================== *)

Module Samples.
Import Editing.

(** [hello] with [el] selected. *)
Definition hello_el : Editor :=
  {| value := lit "hello"; selectionStart := 1; selectionEnd := 3 |}.

(** A [parseFloat] and a [String] that know the numbers of the runs:
    every string reads as 2, and the numbers print as [4], [8] or
    [1.5]. *)
Definition parseFloat_2 (s : jsstring) : float := 2%float.

Definition toString_small (x : float) : jsstring :=
  if PrimFloat.eqb x 4 then lit "4"
  else if PrimFloat.eqb x 8 then lit "8"
  else lit "1.5".

(** Two items, the second one done. *)
Definition two_todos : list Todos.todo :=
  [ {| Todos.text := lit "buy milk"; Todos.completed := false;
       Todos.id := None |};
    {| Todos.text := lit "call home"; Todos.completed := true;
       Todos.id := None |} ].

(** The delete button of the second item. *)
Definition second_delete : Todos.element :=
  {| Todos.classList := ["todo-delete"]%string;
     Todos.dataset := [("id"%string, lit "undefined")] |}.

End Samples.

(* ===================================================================== *)
(** * Properties *)
(* ===================================================================== *)

Module RegExpFacts.
Import RegExp.

Lemma escape_class_syntax c :
  in_class escape_class c = in_class syntax_chars c.
Proof.
  unfold in_class, escape_class, syntax_chars, backslash; simpl.
  repeat match goal with
         | |- context [N.eqb c ?k] =>
             destruct (N.eqb_spec c k); [subst; reflexivity |]
         end.
  reflexivity.
Qed.

Lemma backslash_in_class : in_class escape_class backslash = true.
Proof. reflexivity. Qed.

Lemma escapeRegExp_cons c r :
  escapeRegExp (c :: r) =
  if in_class escape_class c then backslash :: c :: escapeRegExp r
  else c :: escapeRegExp r.
Proof. reflexivity. Qed.

Lemma compile_escaped c r :
  compile (backslash :: c :: r) =
  if in_class syntax_chars c then option_map (cons c) (compile r) else None.
Proof. reflexivity. Qed.

Lemma compile_plain c r :
  compile (c :: r) =
  if (c =? backslash)%N then
    match r with
    | c2 :: r2 =>
        if in_class syntax_chars c2 then option_map (cons c2) (compile r2)
        else None
    | [] => None
    end
  else if in_class syntax_chars c then None
       else option_map (cons c) (compile r).
Proof. reflexivity. Qed.

(** Escaping turns every query into a pattern that denotes the query
    itself. *)
Lemma compile_escapeRegExp s : compile (escapeRegExp s) = Some s.
Proof.
  induction s as [|c s IH]; [reflexivity |].
  rewrite escapeRegExp_cons.
  destruct (in_class escape_class c) eqn:Hc.
  - rewrite compile_escaped, <- escape_class_syntax, Hc, IH. reflexivity.
  - rewrite compile_plain, <- escape_class_syntax, Hc, IH.
    destruct (N.eqb_spec c backslash) as [->|Hne]; [| reflexivity].
    rewrite backslash_in_class in Hc. discriminate.
Qed.

Lemma escapeRegExp_nil s : escapeRegExp s = [] -> s = [].
Proof.
  destruct s as [|c s]; [reflexivity |]. rewrite escapeRegExp_cons.
  destruct (in_class escape_class c); discriminate.
Qed.

Section IgnoreCase.

Variable upper_nonascii : N -> jsstring.

Local Abbreviation canon := (Canonicalize upper_nonascii).
Local Abbreviation match_here := (match_here upper_nonascii).
Local Abbreviation find_from := (find_from upper_nonascii).

Lemma match_here_spec lits s :
  match_here lits s = true <->
  length lits <= length s /\
  Forall2 (fun x y => canon x = canon y) lits (firstn (length lits) s).
Proof.
  revert s; induction lits as [|l lits IH]; intros [|c s]; simpl.
  - split; [intros _; split; [lia | constructor] | reflexivity].
  - split; [intros _; split; [lia | constructor] | reflexivity].
  - split; [discriminate | intros [H _]; lia].
  - rewrite andb_true_iff, N.eqb_eq, IH. split.
    + intros [Hc [Hl Hr]]. split; [lia | constructor; assumption].
    + intros [Hl Hr]. inversion Hr; subst. repeat split; [assumption | lia | assumption].
Qed.

Lemma find_from_Some lits s off :
  find_from lits s = Some off ->
  match_here lits (skipn off s) = true /\
  (forall k, k < off -> match_here lits (skipn k s) = false) /\
  off <= length s.
Proof.
  revert off; induction s as [|c s IH]; intros off.
  - simpl. destruct (match_here lits []) eqn:E; [| discriminate].
    intros [= <-]. simpl. repeat split; [assumption | intros; lia | lia].
  - cbn [RegExp.find_from].
    destruct (match_here lits (c :: s)) eqn:E.
    + intros [= <-]. simpl. repeat split; [assumption | intros; lia | lia].
    + destruct (find_from lits s) as [o|] eqn:F; [| discriminate].
      simpl. intros [= <-]. destruct (IH o eq_refl) as (H1 & H2 & H3).
      simpl. repeat split; [assumption | | lia].
      intros [|k] Hk; [exact E | simpl; apply H2; lia].
Qed.

Lemma find_from_None lits s :
  find_from lits s = None ->
  forall k, k <= length s -> match_here lits (skipn k s) = false.
Proof.
  induction s as [|c s IH].
  - simpl. destruct (match_here lits []) eqn:E; [discriminate |].
    intros _ [|k] Hk; simpl; [assumption | simpl in Hk; lia].
  - cbn [RegExp.find_from].
    destruct (match_here lits (c :: s)) eqn:E; [discriminate |].
    destruct (find_from lits s) as [o|] eqn:F; [discriminate |].
    intros _ [|k] Hk; [exact E |]. simpl. apply IH; [reflexivity | simpl in Hk; lia].
Qed.

End IgnoreCase.

End RegExpFacts.

Module SearchFacts.
Import RegExp Search RegExpFacts.

Section IgnoreCase.

Variable upper_nonascii : N -> jsstring.

Local Abbreviation match_here := (RegExp.match_here upper_nonascii).
Local Abbreviation find_from := (RegExp.find_from upper_nonascii).
Local Abbreviation exec := (RegExp.exec upper_nonascii).
Local Abbreviation exec_loop := (Search.exec_loop upper_nonascii).
Local Abbreviation performSearch := (Search.performSearch upper_nonascii).
Local Abbreviation occurs_at := (Search.occurs_at upper_nonascii).
Local Abbreviation collected := (Search.collected upper_nonascii).

Lemma occurs_at_match_here q content p :
  q <> [] ->
  match_here q (skipn p content) = true <-> occurs_at q content p.
Proof.
  intros Hq. rewrite match_here_spec, length_skipn.
  unfold Search.occurs_at, ci_equal, substring.
  replace (p + length q - p) with (length q) by lia.
  assert (0 < length q) by (destruct q; [congruence | simpl; lia]).
  split; intros [H1 H2]; (split; [lia | assumption]).
Qed.

Lemma exec_loop_acc fuel q content li acc :
  exec_loop fuel q content li acc =
  option_map (app acc) (exec_loop fuel q content li []).
Proof.
  revert li acc; induction fuel as [|fuel IH]; intros li acc; [reflexivity |].
  simpl. destruct (exec q li content) as [[[i t]|] li'].
  - rewrite IH. rewrite (IH li' [_]).
    destruct (exec_loop fuel q content li' []); simpl; [| reflexivity].
    rewrite <- app_assoc. reflexivity.
  - simpl. rewrite app_nil_r. reflexivity.
Qed.

Lemma exec_loop_more_fuel fuel fuel' q content li acc ms :
  exec_loop fuel q content li acc = Some ms ->
  fuel <= fuel' ->
  exec_loop fuel' q content li acc = Some ms.
Proof.
  revert fuel' li acc; induction fuel as [|fuel IH]; intros fuel' li acc;
    [discriminate |].
  destruct fuel' as [|fuel']; [lia |]. simpl.
  destruct (exec q li content) as [[[i t]|] li']; [| auto].
  intros H Hle. apply IH; [assumption | lia].
Qed.

Lemma exec_loop_collects q content :
  q <> [] ->
  forall fuel li,
    li <= length content -> length content - li < fuel ->
    exists ms, exec_loop fuel q content li [] = Some ms /\
               collected q content li ms.
Proof.
  intros Hq. induction fuel as [|fuel IH]; intros li Hli Hfuel; [lia |].
  simpl. unfold RegExp.exec.
  destruct (Nat.ltb_spec (length content) li) as [Hlt|_]; [lia |].
  destruct (find_from q (skipn li content)) as [off|] eqn:F.
  - apply find_from_Some in F. destruct F as (Hm & Hbefore & Hoff).
    rewrite skipn_skipn in Hm.
    replace (off + li) with (li + off) in Hm by lia.
    pose proof Hm as Hocc. apply occurs_at_match_here in Hocc; [| assumption].
    destruct Hocc as [Hbound Hci].
    assert (Hlen : length (firstn (length q) (skipn (li + off) content)) = length q).
    { rewrite length_firstn, length_skipn. lia. }
    assert (0 < length q) by (destruct q; [congruence | simpl; lia]).
    destruct (IH (li + off + length q)) as (ms & Hms & Hall & Hasc & Hcompl);
      [lia | lia |].
    rewrite exec_loop_acc, Hms. simpl. eexists; split; [reflexivity |].
    split; [| split].
    + constructor.
      * simpl. rewrite Hlen. split; [lia |]. split; [split; assumption |].
        split; [| reflexivity]. unfold substring. f_equal. lia.
      * eapply Forall_impl; [exact Hall |]. simpl.
        intros m (H1 & H2 & H3 & H4).
        split; [lia |]. split; [exact H2 |]. split; assumption.
    + simpl. split; [| assumption].
      destruct ms as [|m' ms']; [exact I |].
      inversion Hall as [|? ? (H1 & _) _]; subst. rewrite Hlen. lia.
    + intros p Hp Hoccp.
      destruct (Nat.lt_ge_cases p (li + off)) as [Hlo|Hhi].
      * exfalso. apply occurs_at_match_here in Hoccp; [| assumption].
        specialize (Hbefore (p - li) ltac:(lia)).
        rewrite skipn_skipn in Hbefore.
        replace (p - li + li) with p in Hbefore by lia. congruence.
      * destruct (Nat.lt_ge_cases p (li + off + length q)) as [Hin|Hout].
        -- eexists; split; [left; reflexivity |]. simpl. rewrite Hlen. lia.
        -- destruct (Hcompl p Hout Hoccp) as (m & Hm1 & Hm2).
           exists m. split; [right; assumption | assumption].
  - eexists; split; [reflexivity |]. split; [constructor | split; [exact I |]].
    intros p Hp Hoccp. exfalso.
    pose proof Hoccp as [Hb _].
    apply occurs_at_match_here in Hoccp; [| assumption].
    pose proof (find_from_None _ _ _ F (p - li)) as Hn.
    rewrite length_skipn, skipn_skipn in Hn.
    replace (p - li + li) with p in Hn by lia.
    rewrite Hn in Hoccp; [discriminate | lia].
Qed.

Lemma truthy_nonempty (s : jsstring) : s <> [] -> truthy s = true.
Proof. destruct s; [congruence | reflexivity]. Qed.

(** What [performSearch] leaves behind for a query that is not blank. *)
Lemma performSearch_runs query content st :
  trim query <> [] ->
  exists st',
    (forall fuel, search_fuel content <= fuel ->
                  performSearch fuel query content st = Some st') /\
    collected (trim query) content 0 (searchMatches st') /\
    currentMatchIndex st' =
      (if 0 <? length (searchMatches st') then 0%Z else (-1)%Z).
Proof.
  intros Hq.
  destruct (exec_loop_collects (trim query) content Hq (search_fuel content) 0)
    as (ms & Hms & Hcol); [lia | unfold search_fuel; lia |].
  assert (Hrun : forall fuel, search_fuel content <= fuel ->
            exec_loop fuel (trim query) content 0 [] = Some ms)
    by (intros fuel Hf; eapply exec_loop_more_fuel; eassumption).
  destruct ms as [|m0 ms].
  - eexists. split.
    { intros fuel Hf. unfold Search.performSearch.
      rewrite (truthy_nonempty _ Hq), compile_escapeRegExp, (Hrun fuel Hf).
      reflexivity. }
    split; [exact Hcol | reflexivity].
  - eexists. split.
    { intros fuel Hf. unfold Search.performSearch.
      rewrite (truthy_nonempty _ Hq), compile_escapeRegExp, (Hrun fuel Hf).
      reflexivity. }
    split; [exact Hcol | reflexivity].
Qed.

Lemma search_inv_clear st : search_inv (clearSearchHighlights st).
Proof. left. split; reflexivity. Qed.

Lemma navigateSearch_in_range d st :
  search_inv st ->
  exists st',
    navigateSearch d st = Some st' /\
    searchMatches st' = searchMatches st /\
    search_inv st' /\
    (searchMatches st <> [] ->
     currentMatchIndex st' =
       let n := Z.of_nat (length (searchMatches st)) in
       let i := (currentMatchIndex st + d)%Z in
       if (i <? 0)%Z then (n - 1)%Z else if (i >=? n)%Z then 0%Z else i).
Proof.
  intros Hinv. unfold navigateSearch.
  destruct (searchMatches st) as [|m ms] eqn:Hms.
  - simpl. exists st. rewrite Hms. repeat split; [assumption | congruence].
  - destruct Hinv as [[Hnil _]|[_ Hrange]]; [congruence |].
    rewrite Hms in Hrange.
    set (n := Z.of_nat (length (m :: ms))) in *.
    set (i := (currentMatchIndex st + d)%Z).
    set (i' := if (i <? 0)%Z then (n - 1)%Z
               else if (i >=? n)%Z then 0%Z else i).
    assert (Hi' : (0 <= i' < n)%Z).
    { subst i'. destruct (Z.ltb_spec i 0); [lia |].
      destruct (Z.geb_spec i n); lia. }
    replace (length (m :: ms) =? 0) with false by reflexivity.
    cbv iota. unfold highlightCurrentMatch.
    cbn [Search.searchMatches Search.currentMatchIndex].
    replace (length (m :: ms) =? 0) with false by reflexivity.
    destruct (Z.ltb_spec i' 0) as [?|_]; [lia |]. cbn [orb].
    destruct (nth_error (m :: ms) (Z.to_nat i')) as [m'|] eqn:Hnth.
    + eexists. split; [reflexivity |]. cbn.
      split; [reflexivity |]. split; [| intros _; reflexivity].
      right. cbn. split; [discriminate |]. fold i i'. subst n.
      cbn [length] in *. lia.
    + apply nth_error_None in Hnth. subst n. lia.
Qed.

Lemma run_op_inv o st :
  search_inv st ->
  exists st', run_op upper_nonascii o st = Some st' /\ search_inv st'.
Proof.
  intros Hinv. destruct o as [q c|d|]; simpl.
  - destruct (trim q) as [|x r] eqn:Hq.
    + unfold Search.performSearch. rewrite Hq. simpl.
      eexists; split; [reflexivity | apply search_inv_clear].
    + destruct (performSearch_runs q c st) as (st' & Hrun & _ & Hidx);
        [rewrite Hq; discriminate |].
      exists st'. split; [apply Hrun; lia |].
      unfold search_inv. rewrite Hidx.
      destruct (searchMatches st') as [|m ms].
      * left. split; reflexivity.
      * right. split; [discriminate |]. cbn [length]. simpl. lia.
  - destruct (navigateSearch_in_range d st Hinv) as (st' & H1 & _ & H2 & _).
    eauto.
  - eexists; split; [reflexivity | apply search_inv_clear].
Qed.

Lemma run_ops_inv ops : forall st,
  search_inv st ->
  exists st', run_ops upper_nonascii ops st = Some st' /\ search_inv st'.
Proof.
  induction ops as [|o ops IH]; intros st Hinv.
  - exists st. split; [reflexivity | assumption].
  - destruct (run_op_inv o st Hinv) as (st1 & Hrun & Hinv1).
    simpl. rewrite Hrun. apply IH; assumption.
Qed.


(** C8.  Every sequence of [performSearch], [navigateSearch] (with any
    whole number as direction) and [clearSearchHighlights] from the
    initial state runs to a state in which either [searchMatches] is empty
    and [currentMatchIndex] is -1, or [searchMatches] is not empty and
    [currentMatchIndex] is between 0 and its length minus one; from such a
    state with matches, stepping forward from the last match gives index
    0 and stepping back from the first gives the last index. *)
Theorem search_state_invariant ops :
  exists st,
    run_ops upper_nonascii ops initial = Some st /\
    search_inv st /\
    (searchMatches st <> [] ->
     let last := (Z.of_nat (length (searchMatches st)) - 1)%Z in
     (currentMatchIndex st = last ->
      exists st', navigateSearch 1 st = Some st' /\
                  searchMatches st' = searchMatches st /\
                  currentMatchIndex st' = 0%Z) /\
     (currentMatchIndex st = 0%Z ->
      exists st', navigateSearch (-1) st = Some st' /\
                  searchMatches st' = searchMatches st /\
                  currentMatchIndex st' = last)).
Proof.
  destruct (run_ops_inv ops initial) as (st & Hrun & Hinv);
    [left; split; reflexivity |].
  exists st. split; [exact Hrun |]. split; [exact Hinv |].
  intros Hne last. split; intros Hcur.
  - destruct (navigateSearch_in_range 1 st Hinv)
      as (st' & H1 & H2 & _ & H4).
    exists st'. split; [exact H1 |]. split; [exact H2 |].
    rewrite (H4 Hne). cbv zeta. rewrite Hcur. subst last.
    destruct (Z.ltb_spec (Z.of_nat (length (searchMatches st)) - 1 + 1) 0);
      [lia |].
    destruct (Z.geb_spec (Z.of_nat (length (searchMatches st)) - 1 + 1)
                (Z.of_nat (length (searchMatches st)))); [reflexivity | lia].
  - destruct (navigateSearch_in_range (-1) st Hinv)
      as (st' & H1 & H2 & _ & H4).
    exists st'. split; [exact H1 |]. split; [exact H2 |].
    rewrite (H4 Hne). cbv zeta. rewrite Hcur. reflexivity.
Qed.

End IgnoreCase.

End SearchFacts.

Module ConverterFacts.
Import Converter.

Local Open Scope Q_scope.

Lemma rate_round_trip (a b x : Q) :
  ~ a == 0 -> ~ b == 0 -> x / a * b / b * a == x.
Proof. intros Ha Hb. field. split; assumption. Qed.

(** In the length and weight tables every unit has a rate, a number that
    is not zero. *)
Lemma unit_has_rate type u :
  type = "length"%string \/ type = "weight"%string ->
  In u (units type) ->
  exists rates a,
    get type conversionRates = Some rates /\
    get u rates = Some (Num a) /\ Qeq_bool a 0 = false.
Proof.
  intros [-> | ->] Hu; cbn in Hu;
    repeat (destruct Hu as [<- | Hu];
            [eexists; eexists; repeat split; reflexivity |]);
    destruct Hu.
Qed.

Lemma convert_by_rates type from to rates a b x :
  String.eqb type "temperature" = false ->
  get type conversionRates = Some rates ->
  get from rates = Some (Num a) -> get to rates = Some (Num b) ->
  Qeq_bool a 0 = false ->
  convert type from to x = Some (x / a * b).
Proof.
  intros Ht Hr Ha Hb Hz. unfold convert. rewrite Ht, Hr, Ha, Hb, Hz.
  reflexivity.
Qed.

Lemma Qeq_bool_false_neq (a : Q) : Qeq_bool a 0 = false -> ~ a == 0.
Proof. intros H E. apply Qeq_bool_iff in E. congruence. Qed.

Lemma rates_round_trip type u v x :
  type = "length"%string \/ type = "weight"%string ->
  In u (units type) -> In v (units type) ->
  exists y z, convert type u v x = Some y /\
              convert type v u y = Some z /\ z == x.
Proof.
  intros Ht Hu Hv.
  destruct (unit_has_rate type u Ht Hu) as (rates & a & Hr & Ha & Hza).
  destruct (unit_has_rate type v Ht Hv) as (rates' & b & Hr' & Hb & Hzb).
  assert (rates' = rates) by congruence; subst rates'.
  assert (Htemp : String.eqb type "temperature" = false)
    by (destruct Ht as [-> | ->]; reflexivity).
  exists (x / a * b), (x / a * b / b * a).
  split; [eapply convert_by_rates; eassumption |].
  split; [eapply convert_by_rates; eassumption |].
  apply rate_round_trip; apply Qeq_bool_false_neq; assumption.
Qed.

Lemma temperature_round_trip u v x :
  In u (units "temperature") -> In v (units "temperature") ->
  exists y z, convert "temperature" u v x = Some y /\
              convert "temperature" v u y = Some z /\ z == x.
Proof.
  intros Hu Hv. cbn in Hu, Hv.
  destruct Hu as [<- | [<- | [<- | []]]];
    destruct Hv as [<- | [<- | [<- | []]]];
    (eexists; eexists; split; [reflexivity |]; split; [reflexivity |];
     cbv beta; field).
Qed.

(** C6.  For each of the three categories and any two of its units,
    converting a rational value from the first unit to the second and the
    result back gives a number equal to the value; so does converting
    from a unit to itself. *)
Theorem convert_round_trip type u v (x : Q) :
  In type categories -> In u (units type) -> In v (units type) ->
  (exists y z, convert type u v x = Some y /\
               convert type v u y = Some z /\ z == x) /\
  (exists y, convert type u u x = Some y /\ y == x).
Proof.
  intros Ht Hu Hv.
  assert (Hpair : forall a b, In a (units type) -> In b (units type) ->
            exists y z, convert type a b x = Some y /\
                        convert type b a y = Some z /\ z == x).
  { intros a b Ha Hb. destruct Ht as [<- | [<- | [<- | []]]].
    - apply rates_round_trip; auto.
    - apply rates_round_trip; auto.
    - apply temperature_round_trip; assumption. }
  split; [apply Hpair; assumption |].
  destruct Ht as [<- | [<- | [<- | []]]].
  - destruct (unit_has_rate _ u (or_introl eq_refl) Hu)
      as (rates & a & Hr & Ha & Hza).
    exists (x / a * a). split.
    + eapply convert_by_rates; try eassumption. reflexivity.
    + field. apply Qeq_bool_false_neq; assumption.
  - destruct (unit_has_rate _ u (or_intror eq_refl) Hu)
      as (rates & a & Hr & Ha & Hza).
    exists (x / a * a). split.
    + eapply convert_by_rates; try eassumption. reflexivity.
    + field. apply Qeq_bool_false_neq; assumption.
  - exists x. split; [| reflexivity].
    unfold convert, convertTemperature. rewrite !String.eqb_refl.
    reflexivity.
Qed.

End ConverterFacts.

Module CalculatorFacts.
Import Calculator.

Section Builtins.

Variable parseFloat : jsstring -> float.
Variable Number_toString : float -> jsstring.

Local Abbreviation calculate := (Calculator.calculate parseFloat Number_toString).

(** C9.  With the operator [divide], a current value that parses to zero
    makes [calculate] set [currentValue] to the string [Error]; a current
    value that parses to anything else makes it the string of the
    quotient of the previous value by the current one. *)
Theorem calculate_divide (c : Calc) :
  operator c = "divide"%string ->
  (PrimFloat.eqb (parseFloat (currentValue c)) 0%float = true ->
   currentValue (calculate c) = lit "Error") /\
  (PrimFloat.eqb (parseFloat (currentValue c)) 0%float = false ->
   currentValue (calculate c) =
     Number_toString (parseFloat (previousValue c) / parseFloat (currentValue c))%float).
Proof.
  intros Hop. unfold Calculator.calculate. rewrite Hop.
  change (String.eqb "divide" "add") with false.
  change (String.eqb "divide" "subtract") with false.
  change (String.eqb "divide" "multiply") with false.
  change (String.eqb "divide" "divide") with true.
  cbv iota. cbn [Calculator.currentValue].
  split; intros Hz; rewrite Hz; reflexivity.
Qed.

End Builtins.

End CalculatorFacts.

Module PasswordFacts.
Import Password.



Section Random.

Variable random : nat -> Q.
Hypothesis random_range : forall i, (0 <= random i)%Q /\ (random i < 1)%Q.


End Random.




End PasswordFacts.

Module ColorFacts.
Import RegExp Color.

(** A property that holds of every ASCII code unit by enumeration. *)
Lemma check_ascii (P : N -> bool) :
  forallb P (map N.of_nat (seq 0 128)) = true ->
  forall c, (c < 128)%N -> P c = true.
Proof.
  intros H c Hc. rewrite forallb_forall in H. apply H.
  rewrite <- (N2Nat.id c). apply in_map. apply in_seq. lia.
Qed.

Lemma existsb_ext_in {A : Type} (f g : A -> bool) (l : list A) :
  (forall x, In x l -> f x = g x) -> existsb f l = existsb g l.
Proof.
  induction l as [|a l IH]; intros H; [reflexivity |]. simpl.
  rewrite (H a (or_introl eq_refl)), IH; [reflexivity |].
  intros x Hx. apply H. right. exact Hx.
Qed.

Lemma is_hex_digit_ascii c : is_hex_digit c = true -> (c < 128)%N.
Proof.
  unfold is_hex_digit, in_range. rewrite !orb_true_iff, !andb_true_iff, !N.leb_le.
  lia.
Qed.

Lemma is_hex_digit_cases c : is_hex_digit c = true -> In c hex_digits.
Proof.
  intros H. pose proof (is_hex_digit_ascii c H) as Hc.
  pose proof (check_ascii
                (fun c => implb (is_hex_digit c)
                            (existsb (N.eqb c) hex_digits))
                ltac:(vm_compute; reflexivity) c Hc) as Hin.
  cbv beta in Hin. rewrite H in Hin.
  destruct (existsb (N.eqb c) hex_digits) eqn:E; [| discriminate].
  apply existsb_exists in E. destruct E as (d & Hd & E).
  apply N.eqb_eq in E. subst. exact Hd.
Qed.

Lemma option_Z_eqb_eq a b : option_Z_eqb a b = true -> a = b.
Proof.
  destruct a, b; simpl; try discriminate; [| reflexivity].
  intros H. apply Z.eqb_eq in H. congruence.
Qed.

(** [parseInt] of a group of two hexadecimal digits is its base-16
    value. *)
Lemma parseInt16_pair d1 d2 :
  is_hex_digit d1 = true -> is_hex_digit d2 = true ->
  parseInt16 [d1; d2] = Some (base16_pair d1 d2).
Proof.
  intros H1 H2. apply is_hex_digit_cases in H1, H2.
  assert (Hall : forallb (fun a => forallb (fun b =>
             option_Z_eqb (parseInt16 [a; b]) (Some (base16_pair a b)))
             hex_digits) hex_digits = true) by (vm_compute; reflexivity).
  rewrite forallb_forall in Hall. specialize (Hall d1 H1).
  rewrite forallb_forall in Hall. apply option_Z_eqb_eq, Hall, H2.
Qed.

Section IgnoreCase.

Variable upper_nonascii : N -> jsstring.

Local Abbreviation canon := (Canonicalize upper_nonascii).
Local Abbreviation class_matches := (Color.class_matches upper_nonascii).
Local Abbreviation match_groups := (Color.match_groups upper_nonascii).
Local Abbreviation hex_exec := (Color.hex_exec upper_nonascii).
Local Abbreviation hexToRgb := (Color.hexToRgb upper_nonascii).

Lemma canon_ascii c : (c < 128)%N -> canon c = ascii_upper c.
Proof.
  intros Hc. unfold Canonicalize, toUpperCase1.
  destruct (N.ltb_spec c 128) as [_|?]; [| lia].
  destruct (N.leb_spec 128 c); [lia | reflexivity].
Qed.

Lemma canon_nonascii c : (128 <= c)%N -> (128 <= canon c)%N.
Proof.
  intros Hc. unfold Canonicalize, toUpperCase1.
  destruct (N.ltb_spec c 128) as [?|_]; [lia |].
  destruct (upper_nonascii c) as [|cu [|? ?]]; try assumption.
  destruct (N.leb_spec 128 c) as [_|?]; [| lia]. simpl.
  destruct (N.ltb_spec cu 128); assumption.
Qed.

Lemma ascii_upper_ascii c : (c < 128)%N -> (ascii_upper c < 128)%N.
Proof.
  intros Hc. unfold ascii_upper, in_range.
  destruct (N.leb_spec 97 c), (N.leb_spec c 122); simpl; lia.
Qed.

(** Under the [i] flag the class [[a-f\d]] matches the hexadecimal digits
    and nothing else. *)
Lemma class_matches_hex c : class_matches hex_class c = is_hex_digit c.
Proof.
  unfold Color.class_matches.
  rewrite (existsb_ext_in _ (fun m => (ascii_upper m =? canon c)%N)).
  2:{ intros m Hm. rewrite canon_ascii; [reflexivity |].
      unfold hex_class in Hm. simpl in Hm.
      repeat (destruct Hm as [<- | Hm]; [lia |]). destruct Hm. }
  destruct (N.lt_ge_cases c 128) as [Hc|Hc].
  - rewrite (canon_ascii c Hc).
    apply eq_sym, eqb_prop.
    apply (check_ascii (fun c => Bool.eqb (is_hex_digit c)
             (existsb (fun m => (ascii_upper m =? ascii_upper c)%N) hex_class)));
      [vm_compute; reflexivity | exact Hc].
  - pose proof (canon_nonascii c Hc) as Hn.
    transitivity false.
    + apply not_true_is_false. intros E. apply existsb_exists in E.
      destruct E as (m & Hm & E). apply N.eqb_eq in E.
      assert ((ascii_upper m < 128)%N).
      { apply ascii_upper_ascii.
        unfold hex_class in Hm. simpl in Hm.
        repeat (destruct Hm as [<- | Hm]; [lia |]). destruct Hm. }
      lia.
    + apply eq_sym, not_true_is_false. intros E.
      apply is_hex_digit_ascii in E. lia.
Qed.

Lemma forallb_class (s : jsstring) :
  forallb (class_matches hex_class) s = forallb is_hex_digit s.
Proof.
  induction s as [|c s IH]; [reflexivity |]. cbn [forallb].
  rewrite class_matches_hex, IH. reflexivity.
Qed.

Lemma match_groups_spec (s : jsstring) :
  match_groups s =
  match s with
  | [c1; c2; c3; c4; c5; c6] =>
      if forallb is_hex_digit s then Some ([c1; c2], [c3; c4], [c5; c6])
      else None
  | _ => None
  end.
Proof.
  unfold Color.match_groups.
  do 6 (destruct s as [|? s]; [reflexivity |]).
  destruct s; [| reflexivity]. rewrite forallb_class. reflexivity.
Qed.

Lemma match_groups_hash (rest : jsstring) : match_groups (hash :: rest) = None.
Proof.
  rewrite match_groups_spec.
  do 6 (destruct rest as [|? rest]; [reflexivity |]); reflexivity.
Qed.

Lemma hex_exec_spec (s : jsstring) :
  hex_exec s =
  match s with
  | c :: rest => if (c =? hash)%N then match_groups rest else match_groups s
  | [] => None
  end.
Proof.
  destruct s as [|c rest]; [reflexivity |]. unfold Color.hex_exec.
  destruct (N.eqb_spec c hash) as [-> | _]; [| reflexivity].
  rewrite match_groups_hash. destruct (match_groups rest); reflexivity.
Qed.

Lemma hex_exec_well_formed (s : jsstring) ds :
  well_formed s ds ->
  exists d1 d2 d3 d4 d5 d6,
    ds = [d1; d2; d3; d4; d5; d6] /\
    forallb is_hex_digit ds = true /\
    hex_exec s = Some ([d1; d2], [d3; d4], [d5; d6]).
Proof.
  intros (Hlen & Hhex & Hs).
  do 6 (destruct ds as [|? ds]; [discriminate |]).
  destruct ds; [| discriminate].
  do 6 eexists. split; [reflexivity |]. split; [exact Hhex |].
  rewrite hex_exec_spec. destruct Hs as [-> | ->].
  - destruct (N.eqb_spec n hash) as [-> | _]; [discriminate |].
    rewrite match_groups_spec, Hhex. reflexivity.
  - rewrite N.eqb_refl, match_groups_spec, Hhex. reflexivity.
Qed.

Lemma hex_exec_Some (s : jsstring) gs :
  hex_exec s = Some gs -> exists ds, well_formed s ds.
Proof.
  rewrite hex_exec_spec. destruct s as [|c rest]; [discriminate |].
  destruct (N.eqb_spec c hash) as [-> | _]; rewrite match_groups_spec.
  - do 6 (destruct rest as [|? rest]; [discriminate |]).
    destruct rest; [| discriminate].
    destruct (forallb is_hex_digit _) eqn:E; [| discriminate].
    intros _.
    match type of E with forallb _ ?l = true => exists l end.
    split; [reflexivity |]. split; [exact E |].
    right; reflexivity.
  - do 5 (destruct rest as [|? rest]; [discriminate |]).
    destruct rest; [| discriminate].
    destruct (forallb is_hex_digit _) eqn:E; [| discriminate].
    intros _.
    match type of E with forallb _ ?l = true => exists l end.
    split; [reflexivity |]. split; [exact E |].
    left; reflexivity.
Qed.

(** C7.  When the input is six hexadecimal digits, with or without a [#]
    in front, [hexToRgb] returns the record whose components are the
    three two-digit groups read in base 16; it returns a record for no
    other input, and [null] for every input that is not of that form. *)
Theorem hexToRgb_exact (s : jsstring) :
  (forall ds, well_formed s ds ->
     exists d1 d2 d3 d4 d5 d6,
       ds = [d1; d2; d3; d4; d5; d6] /\
       hexToRgb s = Some {| r := Some (base16_pair d1 d2);
                            g := Some (base16_pair d3 d4);
                            b := Some (base16_pair d5 d6) |}) /\
  (forall x, hexToRgb s = Some x -> exists ds, well_formed s ds) /\
  ((forall ds, ~ well_formed s ds) -> hexToRgb s = None).
Proof.
  assert (Honly : forall x, hexToRgb s = Some x -> exists ds, well_formed s ds).
  { intros x. unfold Color.hexToRgb.
    destruct (hex_exec s) as [gs|] eqn:E; [| discriminate].
    intros _. eapply hex_exec_Some; eassumption. }
  split; [| split; [exact Honly |]].
  - intros ds Hwf.
    destruct (hex_exec_well_formed s ds Hwf)
      as (d1 & d2 & d3 & d4 & d5 & d6 & -> & Hhex & Hexec).
    exists d1, d2, d3, d4, d5, d6. split; [reflexivity |].
    unfold Color.hexToRgb. rewrite Hexec.
    cbn [forallb] in Hhex. rewrite !andb_true_iff in Hhex.
    destruct Hhex as (H1 & H2 & H3 & H4 & H5 & H6 & _).
    rewrite !parseInt16_pair by assumption. reflexivity.
  - intros Hnone. destruct (hexToRgb s) as [x|] eqn:E; [| reflexivity].
    destruct (Honly x eq_refl) as (ds & Hwf). destruct (Hnone ds Hwf).
Qed.

End IgnoreCase.

End ColorFacts.

Module StorageFacts.
Import Storage.

Lemma trimStart_keeps (s : jsstring) :
  has_non_white_space s -> has_non_white_space (trimStart s).
Proof.
  unfold has_non_white_space. induction s as [|c s IH]; intros H.
  - inversion H.
  - simpl. destruct (is_white_space c) eqn:E; [| exact H].
    inversion H; subst; [congruence | auto].
Qed.

Lemma has_non_white_space_rev (s : jsstring) :
  has_non_white_space s -> has_non_white_space (rev s).
Proof.
  unfold has_non_white_space. rewrite !List.Exists_exists.
  intros (c & Hin & Hc). exists c. split; [| exact Hc].
  apply in_rev. rewrite rev_involutive. exact Hin.
Qed.

(** A string with a character that is not white space does not trim to
    the empty string. *)
Lemma trim_nonempty (s : jsstring) : has_non_white_space s -> trim s <> [].
Proof.
  intros H. unfold trim, trimEnd.
  pose proof (has_non_white_space_rev _
                (trimStart_keeps _
                   (has_non_white_space_rev _ (trimStart_keeps _ H)))) as Hk.
  intros E. rewrite E in Hk. inversion Hk.
Qed.


Lemma obj_set_In key value obj : In (key, value) (obj_set key value obj).
Proof.
  induction obj as [|[k v] obj IH]; simpl; [left; reflexivity |].
  destruct (String.eqb_spec k key) as [-> | _]; [left; reflexivity |].
  right. exact IH.
Qed.

Lemma obj_set_keys key value obj k :
  In k (map fst (obj_set key value obj)) -> k = key \/ In k (map fst obj).
Proof.
  induction obj as [|[k0 v0] obj IH]; simpl.
  - intros [<- | []]. left; reflexivity.
  - destruct (String.eqb_spec k0 key) as [-> | _]; simpl.
    + intros [<- | H]; [left; reflexivity | right; right; exact H].
    + intros [<- | H]; [right; left; reflexivity |].
      destruct (IH H) as [-> | H']; [left; reflexivity | right; right; exact H'].
Qed.

Lemma obj_set_NoDup key value obj :
  List.NoDup (map fst obj) -> List.NoDup (map fst (obj_set key value obj)).
Proof.
  induction obj as [|[k0 v0] obj IH]; simpl; intros H.
  - constructor; [intros [] | constructor].
  - inversion H as [|? ? Hnotin Hrest]; subst.
    destruct (String.eqb_spec k0 key) as [-> | Hne]; simpl.
    + constructor; assumption.
    + constructor; [| apply IH; exact Hrest].
      intros Hin. apply obj_set_keys in Hin. destruct Hin; [congruence | auto].
Qed.


Lemma write_entries_absent entries : forall ls k,
  ~ In k (map fst entries) -> write_entries entries ls !! k = ls !! k.
Proof.
  induction entries as [|[k0 v0] entries IH]; intros ls k Hk; [reflexivity |].
  unfold write_entries in *. simpl in *.
  rewrite IH by tauto. apply lookup_insert_ne. tauto.
Qed.

(** After the batch is written, the store holds each key of the batch
    with its value. *)
Lemma write_entries_lookup entries : forall ls k v,
  List.NoDup (map fst entries) -> In (k, v) entries ->
  write_entries entries ls !! k = Some v.
Proof.
  induction entries as [|[k0 v0] entries IH]; intros ls k v Hnd Hin;
    [destruct Hin |].
  inversion Hnd as [|? ? Hnotin Hrest]; subst.
  destruct Hin as [E | Hin].
  - inversion E; subst. unfold write_entries. simpl.
    fold (write_entries entries (<[k:=v]> ls)).
    rewrite write_entries_absent by exact Hnotin.
    apply lookup_insert_eq.
  - unfold write_entries. simpl. apply IH; assumption.
Qed.

Section Page.

Variable marked_parse : jsstring -> jsstring.

Local Abbreviation loadFromLocalStorage := (Storage.loadFromLocalStorage marked_parse).

Lemma showAutoSaveStatus_keeps status p :
  localStorage (showAutoSaveStatus status p) = localStorage p /\
  editor_value (showAutoSaveStatus status p) = editor_value p /\
  pendingSaveData (showAutoSaveStatus status p) = pendingSaveData p.
Proof.
  unfold showAutoSaveStatus.
  destruct (String.eqb status "saving"); [repeat split |].
  destruct (String.eqb status "saved"); repeat split.
Qed.


Lemma flushSaveData_writes p k v :
  List.NoDup (map fst (pendingSaveData p)) ->
  In (k, v) (pendingSaveData p) ->
  localStorage (flushSaveData p) !! k = Some v /\
  pendingSaveData (flushSaveData p) = [].
Proof.
  intros Hnd Hin. unfold flushSaveData.
  destruct (pendingSaveData p) as [|e es] eqn:E; [destruct Hin |].
  replace (length (e :: es) =? 0) with false by reflexivity.
  destruct (showAutoSaveStatus_keeps "saved"
    {| editor_value := editor_value p;
       editor_placeholder := editor_placeholder p;
       preview_innerHTML := preview_innerHTML p;
       localStorage := write_entries (e :: es) (localStorage p);
       pendingSaveData := [];
       saveTimeout := saveTimeout p;
       status_classes := status_classes p; status_text := status_text p;
       clock := clock p; timers := timers p |}) as (H1 & _ & H3).
  rewrite H1, H3. cbn [Storage.localStorage Storage.pendingSaveData].
  split; [apply write_entries_lookup; assumption | reflexivity].
Qed.



End Page.

End StorageFacts.

Module TimerFacts.
Import Timers.

Section Debounce.

Context {A : Type}.

Local Abbreviation cb := (Debounce.cb A).
Local Abbreviation state := (Debounce.state A).







End Debounce.

Section Throttle.

Context {A : Type}.

Local Abbreviation state := (Throttle.state A).







End Throttle.

End TimerFacts.

Module ReplaceFacts.
Import RegExp Search RegExpFacts SearchFacts.

Section IgnoreCase.

Variable upper_nonascii : N -> jsstring.

Local Abbreviation replaceAll := (Search.replaceAll upper_nonascii).
Local Abbreviation exec_loop := (Search.exec_loop upper_nonascii).

(** A template without a dollar is substituted as it is. *)
Lemma GetSubstitution_plain matched str position template :
  ~ In dollar template ->
  GetSubstitution matched str position template = template.
Proof.
  induction template as [|c r IH]; intros Hd; [reflexivity |].
  cbn [GetSubstitution].
  destruct (N.eqb_spec c dollar) as [-> | _].
  - exfalso. apply Hd. left. reflexivity.
  - rewrite IH; [reflexivity |]. intros H. apply Hd. right. exact H.
Qed.

Lemma replace_matches_plain content replaceText ms : forall next,
  ~ In dollar replaceText ->
  Forall (fun m => end_ m = index m + length (text m)) ms ->
  ascending ms ->
  match ms with [] => True | m :: _ => next <= index m end ->
  replace_matches ms content next replaceText
  = replace_literally ms content next replaceText.
Proof.
  induction ms as [|m ms IH]; intros next Hd Hall Hasc Hnext; [reflexivity |].
  inversion Hall as [|? ? Hend Hrest]; subst.
  cbn [replace_matches replace_literally].
  destruct (Nat.leb_spec next (index m)) as [_|?]; [| lia].
  rewrite GetSubstitution_plain by exact Hd.
  rewrite <- Hend. destruct Hasc as [Hhead Hasc].
  rewrite IH; [reflexivity | exact Hd | exact Hrest | exact Hasc |].
  destruct ms; [exact I | exact Hhead].
Qed.

(** Replace-all with a replacement text that has no dollar in it: every
    recorded occurrence is replaced by the text as it is, the rest of the
    content is kept, and the count is the number of occurrences. *)
Lemma replaceAll_without_dollar query replaceText content :
  trim query <> [] ->
  ~ In dollar replaceText ->
  exists ms,
    exec_loop (search_fuel content) (trim query) content 0 [] = Some ms /\
    Search.collected upper_nonascii (trim query) content 0 ms /\
    replaceAll query replaceText content true =
    Some (if length ms =? 0 then ToastNoMatch
          else Replaced (replace_literally ms content 0 replaceText)
                        (length ms)).
Proof.
  intros Hq Hd.
  destruct (exec_loop_collects upper_nonascii (trim query) content Hq
              (search_fuel content) 0) as (ms & Hms & Hcol);
    [lia | unfold search_fuel; lia |].
  exists ms. split; [exact Hms |]. split; [exact Hcol |].
  unfold Search.replaceAll.
  rewrite (truthy_nonempty _ Hq), compile_escapeRegExp, Hms. cbn [negb].
  destruct (length ms =? 0); [reflexivity |].
  destruct Hcol as (Hall & Hasc & _).
  rewrite replace_matches_plain; [reflexivity | exact Hd | | exact Hasc |].
  - eapply Forall_impl; [exact Hall |]. intros m (_ & _ & _ & H). exact H.
  - destruct ms; [exact I | lia].
Qed.

(** C5.  In the editor content [5 USD], replace-all of the query [USD] by
    the replacement text made of two dollars puts a single dollar in the
    place of the occurrence, where the replacement text itself has two:
    the text is read as a template of [String.prototype.replace]. *)
Theorem replaceAll_expands_dollar_patterns :
  replaceAll (lit "USD") [dollar; dollar] (lit "5 USD") true
  = Some (Replaced (lit "5 $") 1) /\
  replace_literally
    [{| index := 2; text := lit "USD"; end_ := 5 |}] (lit "5 USD") 0
    [dollar; dollar]
  = lit "5 $$" /\
  Search.replaceCurrent (lit "USD") [dollar; dollar] (lit "5 USD")
    {| searchMatches := [{| index := 2; text := lit "USD"; end_ := 5 |}];
       currentMatchIndex := 0; selection := (2, 5); searchCount := (1%Z, 1) |}
  = Some (lit "5 $$").
Proof. split; [reflexivity | split; reflexivity]. Qed.

End IgnoreCase.

End ReplaceFacts.

Module EditingFacts.
Import Editing.

(** Go through the branches of a chain of tests on the action, closing
    each with [tac]. *)
Ltac by_action tac :=
  repeat (lazymatch goal with
          | |- context [String.eqb ?x ?a] =>
              destruct (String.eqb x a) eqn:?; [solve [tac] |]
          end);
  tac.

Lemma or_else_length (a b : jsstring) :
  length (or_else a b) = if truthy a then length a else length b.
Proof. destruct a; reflexivity. Qed.

(** The cursor offset of every action lies within the inserted text. *)
Lemma markup_offset_in_text action sel :
  (0 <= snd (markup action sel) <= Z.of_nat (length (fst (markup action sel))))%Z.
Proof.
  unfold markup.
  by_action ltac:(cbv iota zeta; cbn [fst snd];
                  rewrite ?length_app, ?or_else_length;
                  destruct (truthy sel);
                  cbn [length lit map list_ascii_of_string];
                  rewrite ?length_app; cbn [length]; lia).
Qed.

Lemma substring_from_0 n (s : jsstring) : substring 0 n s = firstn n s.
Proof. unfold substring. rewrite Nat.sub_0_r. reflexivity. Qed.

Lemma insertMarkdown_value action e :
  value (insertMarkdown action e) =
  firstn (selectionStart e) (value e)
    ++ fst (markup action
              (substring (selectionStart e) (selectionEnd e) (value e)))
    ++ skipn (selectionEnd e) (value e).
Proof.
  unfold insertMarkdown. rewrite substring_from_0.
  destruct (markup action _) as [newText off]. reflexivity.
Qed.

(** X1.  [insertMarkdown] leaves the text before the selection and the
    text after it as they are and puts the new text between them; the
    selection collapses to a cursor that lies inside the new text, at the
    position the function computes (nothing is clamped). *)
Theorem insertMarkdown_frame_and_cursor action e :
  selectionStart e <= selectionEnd e ->
  selectionEnd e <= length (value e) ->
  exists newText,
    value (insertMarkdown action e)
      = firstn (selectionStart e) (value e) ++ newText
          ++ skipn (selectionEnd e) (value e) /\
    selectionEnd (insertMarkdown action e)
      = selectionStart (insertMarkdown action e) /\
    selectionStart e <= selectionStart (insertMarkdown action e)
      <= selectionStart e + length newText /\
    Z.of_nat (selectionStart (insertMarkdown action e)) = newCursorPos action e.
Proof.
  intros Hse Hel.
  exists (fst (markup action
                 (substring (selectionStart e) (selectionEnd e) (value e)))).
  split; [apply insertMarkdown_value |].
  pose proof (markup_offset_in_text action
                (substring (selectionStart e) (selectionEnd e) (value e))) as Hoff.
  unfold insertMarkdown, newCursorPos. rewrite substring_from_0.
  destruct (markup action _) as [newText off]. cbn [fst snd] in *.
  unfold setSelectionRange. cbn [selectionStart selectionEnd].
  rewrite !length_app, length_firstn, length_skipn.
  split; [reflexivity |]. split; lia.
Qed.

Lemma contains_here (sel post : jsstring) : contains sel (sel ++ post).
Proof. exists [], post. reflexivity. Qed.

Lemma contains_self (sel : jsstring) : contains sel sel.
Proof. exists [], []. rewrite app_nil_r. reflexivity. Qed.

Lemma contains_app_r (sel a t : jsstring) :
  contains sel t -> contains sel (a ++ t).
Proof.
  intros (pre & post & ->). exists (a ++ pre), post.
  rewrite <- app_assoc. reflexivity.
Qed.

Lemma markup_wraps action sel :
  wraps_selection action = true -> sel <> [] ->
  contains sel (fst (markup action sel)).
Proof.
  intros Hw Hsel. unfold markup.
  assert (Hor : forall b, or_else sel b = sel)
    by (destruct sel; [congruence | reflexivity]).
  by_action ltac:(
    first
      [ solve [ cbv iota zeta; cbn [fst]; rewrite ?Hor;
                repeat first [ apply contains_self | apply contains_here
                             | apply contains_app_r ] ]
      | exfalso;
        match goal with
        | H : String.eqb action _ = true |- _ =>
            apply String.eqb_eq in H; subst action; discriminate Hw
        end
      | exfalso; unfold wraps_selection in Hw; cbn [existsb] in Hw;
        repeat match goal with
               | H : String.eqb action _ = false |- _ =>
                   try rewrite H in Hw; clear H
               end;
        discriminate Hw ]).
Qed.

Lemma markup_fixed action sel :
  wraps_selection action = false ->
  markup action sel = markup action [] /\
  (action <> "table"%string -> action <> "hr"%string ->
   markup action sel = ([], 0%Z)).
Proof.
  intros Hw. unfold markup.
  by_action ltac:(
    first
      [ exfalso;
        match goal with
        | H : String.eqb action _ = true |- _ =>
            apply String.eqb_eq in H; subst action; discriminate Hw
        end
      | match goal with
        | H : String.eqb action _ = true |- _ =>
            apply String.eqb_eq in H; subst action;
            split; [reflexivity | intros; congruence]
        end
      | split; [reflexivity | intros; reflexivity] ]).
Qed.

(** X2.  With a selection that is not empty, each of the fourteen
    formatting actions (bold to image) keeps the selected text: the new
    editor value is the old text before the selection, markup that has
    the selected text in it, and the old text after the selection. *)
Theorem insertMarkdown_keeps_selection action e :
  wraps_selection action = true ->
  substring (selectionStart e) (selectionEnd e) (value e) <> [] ->
  exists pre post,
    value (insertMarkdown action e)
    = firstn (selectionStart e) (value e)
        ++ (pre ++ substring (selectionStart e) (selectionEnd e) (value e)
              ++ post)
        ++ skipn (selectionEnd e) (value e).
Proof.
  intros Hw Hsel. rewrite insertMarkdown_value.
  destruct (markup_wraps action _ Hw Hsel) as (pre & post & ->).
  exists pre, post. reflexivity.
Qed.

(** X3.  For the table and rule actions and for any action the switch
    does not know, the selected text is replaced: the new value does not
    depend on it.  An unknown action inserts nothing, so it deletes the
    selection and leaves the cursor at its start. *)
Theorem insertMarkdown_replaces_selection action e :
  wraps_selection action = false ->
  selectionStart e <= selectionEnd e ->
  selectionEnd e <= length (value e) ->
  value (insertMarkdown action e)
  = firstn (selectionStart e) (value e) ++ fst (markup action [])
      ++ skipn (selectionEnd e) (value e) /\
  (action <> "table"%string -> action <> "hr"%string ->
   value (insertMarkdown action e)
   = firstn (selectionStart e) (value e) ++ skipn (selectionEnd e) (value e) /\
   selectionStart (insertMarkdown action e) = selectionStart e /\
   selectionEnd (insertMarkdown action e) = selectionStart e).
Proof.
  intros Hw Hse Hel.
  destruct (markup_fixed action
              (substring (selectionStart e) (selectionEnd e) (value e)) Hw)
    as [Hfix Hnone].
  split; [rewrite insertMarkdown_value, Hfix; reflexivity |].
  intros Ht Hh. specialize (Hnone Ht Hh).
  rewrite insertMarkdown_value, Hnone. cbn [fst app].
  split; [reflexivity |].
  unfold insertMarkdown. rewrite Hnone. unfold setSelectionRange.
  cbn [selectionStart selectionEnd app].
  rewrite substring_from_0, length_app, length_firstn, length_skipn.
  split; lia.
Qed.

Lemma split_char_nonempty sep s : split_char sep s <> [].
Proof.
  destruct s as [|c r]; cbn [split_char]; [discriminate |].
  destruct (c =? sep)%N; [discriminate |].
  destruct (split_char sep r); discriminate.
Qed.

Lemma last_cons_nonempty {A : Type} (x : A) (l : list A) d :
  l <> [] -> List.last (x :: l) d = List.last l d.
Proof. destruct l; [congruence | reflexivity]. Qed.

(** The pieces of a split: as many as separators plus one, the last one
    being the text after the last separator. *)
Lemma split_char_last sep s :
  exists pre last_,
    s = pre ++ last_ /\
    ~ In sep last_ /\
    (pre = [] \/ exists p, pre = p ++ [sep]) /\
    length (split_char sep s) = 1 + count_occ N.eq_dec pre sep /\
    List.last (split_char sep s) [] = last_.
Proof.
  induction s as [|c r (pre & last_ & Hs & Hnot & Hpre & Hlen & Hlast)].
  - exists [], []. repeat split; auto.
  - cbn [split_char]. destruct (N.eqb_spec c sep) as [-> | Hne].
    + exists (sep :: pre), last_. subst r.
      split; [reflexivity |]. split; [exact Hnot |]. split; [| split].
      * right. destruct Hpre as [-> | (p & ->)];
          [exists []; reflexivity | exists (sep :: p); reflexivity].
      * cbn [length]. rewrite Hlen. cbn [count_occ].
        destruct (N.eq_dec sep sep); [lia | congruence].
      * rewrite last_cons_nonempty by apply split_char_nonempty. exact Hlast.
    + destruct (split_char sep r) as [|h t] eqn:E;
        [exfalso; eapply split_char_nonempty; eassumption |].
      destruct Hpre as [-> | (p & Hp)].
      * exists [], (c :: last_). subst r. cbn [app] in *.
        cbn [count_occ length] in Hlen.
        destruct t; [| cbn in Hlen; lia]. cbn in Hlast. subst h.
        repeat split; auto.
        intros [E' | Hin]; [congruence | auto].
      * exists (c :: pre), last_. subst r.
        split; [reflexivity |]. split; [exact Hnot |]. split; [| split].
        -- right. exists (c :: p). rewrite Hp. reflexivity.
        -- cbn [length] in *. rewrite Hlen. cbn [count_occ].
           destruct (N.eq_dec c sep); [congruence | reflexivity].
        -- assert (t <> []).
           { intros ->. cbn [length] in Hlen. subst pre.
             rewrite count_occ_app in Hlen. cbn [count_occ] in Hlen.
             destruct (N.eq_dec sep sep); [lia | congruence]. }
           rewrite last_cons_nonempty by assumption.
           rewrite last_cons_nonempty in Hlast by assumption. exact Hlast.
Qed.

(** X4.  The line shown is one more than the number of line breaks in
    the text before the cursor, and the column one more than the number
    of characters between the last of these line breaks (or the start of
    the text) and the cursor; both are at least 1. *)
Theorem updateLineColumnInfo_counts e :
  exists pre lastLine,
    firstn (selectionStart e) (value e) = pre ++ lastLine /\
    ~ In newline lastLine /\
    (pre = [] \/ exists p, pre = p ++ [newline]) /\
    fst (updateLineColumnInfo e) = 1 + count_occ N.eq_dec pre newline /\
    snd (updateLineColumnInfo e) = length lastLine + 1.
Proof.
  unfold updateLineColumnInfo. rewrite substring_from_0. cbn [fst snd].
  destruct (split_char_last newline (firstn (selectionStart e) (value e)))
    as (pre & last_ & Hs & Hnot & Hpre & Hlen & Hlast).
  exists pre, last_. rewrite Hlast, Hlen. repeat split; auto.
Qed.

End EditingFacts.

Module TextStatsFacts.
Import Editing TextStats.

Lemma trimStart_all_space (s : jsstring) :
  Forall (fun c => is_white_space c = true) s -> trimStart s = [].
Proof.
  induction 1 as [|c s Hc _ IH]; [reflexivity |]. simpl. rewrite Hc. exact IH.
Qed.

Lemma trim_all_space (s : jsstring) :
  Forall (fun c => is_white_space c = true) s -> trim s = [].
Proof.
  intros H. unfold trim, trimEnd. rewrite (trimStart_all_space s H).
  reflexivity.
Qed.

Lemma all_space_or_not (s : jsstring) :
  Forall (fun c => is_white_space c = true) s \/ has_non_white_space s.
Proof.
  induction s as [|c s [IH | IH]].
  - left. constructor.
  - destruct (is_white_space c) eqn:E.
    + left. constructor; assumption.
    + right. apply Exists_cons_hd. exact E.
  - right. apply Exists_cons_tl. exact IH.
Qed.

(** A string trims to the empty string exactly when it has nothing but
    white space. *)
Lemma trim_nil_iff (s : jsstring) :
  trim s = [] <-> Forall (fun c => is_white_space c = true) s.
Proof.
  split; [| apply trim_all_space].
  intros E. destruct (all_space_or_not s) as [H | H]; [exact H |].
  exfalso. exact (StorageFacts.trim_nonempty s H E).
Qed.

Lemma not_blank_iff (s : jsstring) :
  not_blank s = true <-> has_non_white_space s.
Proof.
  unfold not_blank. split.
  - intros H. destruct (all_space_or_not s) as [Ha | Hn]; [| exact Hn].
    rewrite (trim_all_space s Ha) in H. discriminate.
  - intros H. pose proof (StorageFacts.trim_nonempty s H).
    destruct (trim s); [congruence | reflexivity].
Qed.

(** Each character of the text other than the separator is in one of the
    pieces, and the pieces have no other characters. *)
Lemma split_char_chars sep s c :
  (exists l, In l (split_char sep s) /\ In c l) <-> In c s /\ c <> sep.
Proof.
  induction s as [|x r IH].
  - cbn. split; [intros (l & [<- | []] & []) | intros [[] _]].
  - cbn [split_char]. destruct (N.eqb_spec x sep) as [-> | Hne].
    + split.
      * intros (l & [<- | Hl] & Hc); [destruct Hc |].
        destruct (proj1 IH (ex_intro _ l (conj Hl Hc))) as [H1 H2].
        split; [right; exact H1 | exact H2].
      * intros [[-> | Hin] Hc]; [congruence |].
        destruct (proj2 IH (conj Hin Hc)) as (l & Hl & Hcl).
        exists l. split; [right; exact Hl | exact Hcl].
    + destruct (split_char sep r) as [|h t] eqn:E;
        [exfalso; eapply EditingFacts.split_char_nonempty; eassumption |].
      split.
      * intros (l & [<- | Hl] & Hc).
        -- destruct Hc as [<- | Hc]; [split; [left; reflexivity | exact Hne] |].
           destruct (proj1 IH (ex_intro _ h (conj (or_introl eq_refl) Hc)))
             as [H1 H2].
           split; [right; exact H1 | exact H2].
        -- destruct (proj1 IH (ex_intro _ l (conj (or_intror Hl) Hc)))
             as [H1 H2].
           split; [right; exact H1 | exact H2].
      * intros [[-> | Hin] Hc].
        -- exists (c :: h). split; left; reflexivity.
        -- destruct (proj2 IH (conj Hin Hc)) as (l & [<- | Hl] & Hcl).
           ++ exists (x :: h). split; [left; reflexivity | right; exact Hcl].
           ++ exists l. split; [right; exact Hl | exact Hcl].
Qed.

Lemma filter_length_0 {A : Type} (f : A -> bool) (l : list A) :
  length (List.filter f l) = 0 <-> forall x, In x l -> f x = false.
Proof.
  induction l as [|a l IH]; cbn [List.filter].
  - split; [intros _ x [] | reflexivity].
  - destruct (f a) eqn:E; cbn [length].
    + split; [discriminate |]. intros H.
      rewrite (H a (or_introl eq_refl)) in E. discriminate.
    + rewrite IH. split.
      * intros H x [<- | Hx]; [exact E | apply H; exact Hx].
      * intros H x Hx. apply H. right. exact Hx.
Qed.

Lemma filter_ext_all {A : Type} (f g : A -> bool) (l : list A) :
  (forall x, f x = g x) -> List.filter f l = List.filter g l.
Proof.
  intros H. induction l as [|a l IH]; [reflexivity |].
  cbn [List.filter]. rewrite H, IH. reflexivity.
Qed.

Lemma filter_length_le {A : Type} (f : A -> bool) (l : list A) :
  length (List.filter f l) <= length l.
Proof.
  induction l as [|a l IH]; [apply Nat.le_refl |].
  cbn [List.filter]. destruct (f a); cbn [length]; lia.
Qed.

Lemma newline_is_space : is_white_space newline = true.
Proof. reflexivity. Qed.

Lemma split_char_length sep s :
  length (split_char sep s) = 1 + count_occ N.eq_dec s sep.
Proof.
  induction s as [|c r IH]; [reflexivity |]. cbn [split_char count_occ].
  destruct (N.eqb_spec c sep) as [-> | Hne].
  - destruct (N.eq_dec sep sep); [| congruence]. cbn [length]. lia.
  - destruct (N.eq_dec c sep); [congruence |].
    destruct (split_char sep r); cbn [length] in *; lia.
Qed.

(** X5.  The paragraph figure of the status bar is the number of lines
    of the content that are not blank.  It is the same number as the
    line figure of the text analyzer for the same text, it is 0 exactly
    when the text has nothing but white space, and it is at most the
    number of line breaks plus one. *)
Theorem wordCount_paragraphs text :
  statLines text = snd (wordCount text) /\
  (snd (wordCount text) = 0 <-> ~ has_non_white_space text) /\
  snd (wordCount text) <= 1 + count_occ N.eq_dec text newline.
Proof.
  assert (Hzero : snd (wordCount text) = 0 <-> ~ has_non_white_space text).
  { unfold wordCount. cbn [snd]. rewrite filter_length_0. split.
    - intros Hall Hex. apply List.Exists_exists in Hex.
      destruct Hex as (c & Hin & Hc).
      assert (Hsep : c <> newline)
        by (intros ->; rewrite newline_is_space in Hc; discriminate).
      destruct (proj2 (split_char_chars newline text c) (conj Hin Hsep))
        as (l & Hl & Hcl).
      specialize (Hall l Hl).
      assert (not_blank l = true)
        by (apply not_blank_iff, List.Exists_exists; eauto).
      congruence.
    - intros Hno l Hl. apply not_true_is_false. intros Hnb.
      apply not_blank_iff, List.Exists_exists in Hnb.
      destruct Hnb as (c & Hcl & Hc). apply Hno.
      apply List.Exists_exists. exists c. split; [| exact Hc].
      apply (proj1 (split_char_chars newline text c)). eauto. }
  split; [| split; [exact Hzero |]].
  - unfold statLines.
    rewrite (filter_ext_all (fun l => 0 <? length (trim l)) not_blank)
      by (intros l; unfold not_blank; destruct (trim l); reflexivity).
    destruct (trim text) eqn:E; [| reflexivity].
    symmetry. apply Hzero. intros Hex.
    exact (StorageFacts.trim_nonempty text Hex E).
  - unfold wordCount. cbn [snd].
    rewrite <- split_char_length. apply filter_length_le.
Qed.

Lemma split_spaces_nonempty b s : split_spaces b s <> [].
Proof.
  revert b; induction s as [|c r IH]; intros b; cbn [split_spaces];
    [discriminate |].
  destruct (is_white_space c); [destruct b; [apply IH | discriminate] |].
  unfold cons_head. destruct (split_spaces false r); discriminate.
Qed.

(** The pieces of the split that are not empty are as many as the word
    starts. *)
Lemma split_spaces_words s :
  count_words (List.tl (split_spaces false s)) = word_starts false s /\
  count_words (split_spaces false s) = word_starts true s /\
  count_words (split_spaces true s) = word_starts true s.
Proof.
  induction s as [|c r (IH1 & IH2 & IH3)]; [repeat split |].
  cbn [split_spaces word_starts].
  destruct (is_white_space c); [repeat split; assumption |].
  pose proof (split_spaces_nonempty false r) as Hne.
  destruct (split_spaces false r) as [|h t]; [congruence |].
  cbn [cons_head List.tl] in *. unfold count_words in *.
  assert (Hf : List.filter (fun w : jsstring => 0 <? length w) ((c :: h) :: t)
               = (c :: h) :: List.filter (fun w : jsstring => 0 <? length w) t)
    by reflexivity.
  rewrite Hf. cbn [length]. lia.
Qed.

Lemma word_starts_trimStart s :
  word_starts true (trimStart s) = word_starts true s.
Proof.
  induction s as [|c r IH]; [reflexivity |]. cbn [trimStart word_starts].
  destruct (is_white_space c) eqn:E; [exact IH |].
  cbn [word_starts]. rewrite E. reflexivity.
Qed.

Lemma word_starts_app_space b s w :
  Forall (fun c => is_white_space c = true) w ->
  word_starts b (s ++ w) = word_starts b s.
Proof.
  intros Hw. revert b; induction s as [|c r IH]; intros b; cbn [app].
  - induction Hw as [|x w Hx _ IHw] in b |- *; [reflexivity |].
    cbn [word_starts]. rewrite Hx. apply IHw.
  - cbn [word_starts]. destruct (is_white_space c); rewrite IH; reflexivity.
Qed.

Lemma trimStart_split s :
  exists w, s = w ++ trimStart s /\ Forall (fun c => is_white_space c = true) w.
Proof.
  induction s as [|c r (w & Hs & Hw)]; [exists []; split; [reflexivity | constructor] |].
  cbn [trimStart]. destruct (is_white_space c) eqn:E.
  - exists (c :: w). split; [cbn; rewrite <- Hs; reflexivity |].
    constructor; assumption.
  - exists []. split; [reflexivity | constructor].
Qed.

Lemma word_starts_trim s : word_starts true (trim s) = word_starts true s.
Proof.
  unfold trim, trimEnd.
  destruct (trimStart_split (rev (trimStart s))) as (w & Hs & Hw).
  transitivity (word_starts true (trimStart s));
    [| apply word_starts_trimStart].
  assert (E : trimStart s = rev (trimStart (rev (trimStart s))) ++ rev w)
    by (rewrite <- rev_app_distr, <- Hs, rev_involutive; reflexivity).
  rewrite E at 2. symmetry. apply word_starts_app_space.
  apply List.Forall_forall. intros x Hx. apply in_rev in Hx.
  rewrite List.Forall_forall in Hw. apply Hw. exact Hx.
Qed.

(** X6.  The word figure of the text analyzer is the number of places
    where a word starts: a character that is not white space, at the
    start of the text or right after white space. *)
Theorem statWords_counts_word_starts text :
  statWords text = word_starts true text.
Proof.
  unfold statWords. rewrite <- word_starts_trim.
  destruct (split_spaces_words (trim text)) as (_ & H & _).
  fold (count_words (split_spaces false (trim text))). rewrite H.
  destruct (trim text); reflexivity.
Qed.

End TextStatsFacts.

Module CalculatorKeysFacts.
Import Calculator CalculatorKeys.

Lemma strip_zeros_head l x t : strip_zeros l = x :: t -> x <> 48%N.
Proof.
  induction l as [|d r IH]; cbn [strip_zeros]; [discriminate |].
  destruct (N.eqb_spec d 48) as [_ | Hne]; [exact IH |].
  intros [= <- _]. exact Hne.
Qed.

Lemma strip_zeros_app l r :
  strip_zeros (l ++ r) =
  match strip_zeros l with
  | [] => strip_zeros r
  | _ => strip_zeros l ++ r
  end.
Proof.
  induction l as [|d l IH]; [reflexivity |]. cbn [app strip_zeros].
  destruct (d =? 48)%N; [exact IH | reflexivity].
Qed.

Lemma shown_step l d :
  shown (l ++ [d]) =
  if decide (shown l = lit "0") then [d] else shown l ++ [d].
Proof.
  unfold shown. rewrite strip_zeros_app.
  destruct (strip_zeros l) as [|x t] eqn:E.
  - destruct (decide (lit "0" = lit "0")) as [_ | Hne]; [| congruence].
    cbn [strip_zeros]. destruct (N.eqb_spec d 48) as [-> | _]; reflexivity.
  - pose proof (strip_zeros_head l x t E) as Hx.
    destruct (decide (x :: t = lit "0")) as [Heq | _]; [| reflexivity].
    exfalso. apply Hx. change (lit "0") with [48%N] in Heq. congruence.
Qed.

Lemma typed_digits_from ds : forall l c,
  shouldResetDisplay c = false ->
  currentValue c = shown l ->
  currentValue (fold_left (fun c d => handleNumber [d] c) ds c)
  = shown (l ++ ds).
Proof.
  induction ds as [|d ds IH]; intros l c Hr Hc.
  - rewrite app_nil_r. exact Hc.
  - cbn [fold_left].
    replace (l ++ d :: ds) with ((l ++ [d]) ++ ds)
      by (rewrite <- app_assoc; reflexivity).
    apply IH.
    + unfold handleNumber. rewrite Hr. reflexivity.
    + unfold handleNumber. rewrite Hr. cbn [currentValue].
      rewrite Hc. symmetry. apply shown_step.
Qed.

(** X7.  Digits typed into the calculator as loaded are shown without
    zeros in front: the display is the digits typed with the leading
    zeros removed, or a single 0 when nothing else was typed. *)
Theorem typed_digits_shown (ds : jsstring) :
  currentValue (fold_left (fun c d => handleNumber [d] c) ds initial)
  = shown ds.
Proof. apply (typed_digits_from ds [] initial); reflexivity. Qed.

Section Builtins.

Variable parseFloat : jsstring -> float.
Variable Number_toString : float -> jsstring.

Local Abbreviation handleAction := (CalculatorKeys.handleAction parseFloat Number_toString).
Local Abbreviation press := (CalculatorKeys.press parseFloat Number_toString).
Local Abbreviation press_all := (CalculatorKeys.press_all parseFloat Number_toString).
Local Abbreviation calculate := (Calculator.calculate parseFloat Number_toString).

Hypothesis toString_not_empty : forall x, Number_toString x <> [].

Hypothesis toString_one_dot : forall x, dots (Number_toString x) <= 1.

Lemma toString_ok x :
  Number_toString x <> [] /\ dots (Number_toString x) <= 1.
Proof. split; [apply toString_not_empty | apply toString_one_dot]. Qed.

Lemma calculate_display_ok c : display_ok (calculate c).
Proof.
  pose proof toString_ok as Hts.
  unfold display_ok, dots in *. unfold Calculator.calculate.
  cbn [currentValue].
  repeat match goal with
         | |- context [String.eqb (operator c) ?a] =>
             destruct (String.eqb (operator c) a)
         end;
    try destruct (negb _); cbn [String_]; try apply Hts;
    (split; [discriminate | vm_compute; lia]).
Qed.

Lemma dots_firstn n (s : jsstring) : dots (firstn n s) <= dots s.
Proof.
  unfold dots.
  revert n; induction s as [|c s IH]; intros [|n]; cbn; try lia.
  specialize (IH n). cbn in IH. destruct (N.eq_dec c dot); lia.
Qed.

Lemma no_dot_count (s : jsstring) :
  existsb (N.eqb dot) s = false -> dots s = 0.
Proof.
  unfold dots.
  induction s as [|c s IH]; [reflexivity |]. cbn [existsb count_occ].
  destruct (N.eqb_spec dot c) as [-> | Hne]; [discriminate |].
  destruct (N.eq_dec c dot); [congruence | exact IH].
Qed.

Lemma handleNumber_display_ok d c :
  in_range 48 57 d = true -> display_ok c -> display_ok (handleNumber [d] c).
Proof.
  intros Hd [Hne Hdots]. unfold display_ok, handleNumber.
  assert (Hnd : d <> dot).
  { intros ->. discriminate Hd. }
  assert (H1 : dots [d] = 0).
  { unfold dots. cbn. destruct (N.eq_dec d dot); [congruence | reflexivity]. }
  destruct (shouldResetDisplay c); cbn [currentValue].
  - split; [discriminate | rewrite H1; lia].
  - destruct (decide (currentValue c = lit "0")).
    + split; [discriminate | rewrite H1; lia].
    + split; [destruct (currentValue c); [congruence | discriminate] |].
      unfold dots in *. rewrite count_occ_app, H1. lia.
Qed.

Lemma handleAction_display_ok action c :
  display_ok c -> display_ok (handleAction action c).
Proof.
  intros [Hne Hdots]. unfold CalculatorKeys.handleAction.
  destruct (String.eqb action "clear");
    [split; [discriminate | vm_compute; lia] |].
  destruct (String.eqb action "backspace").
  { unfold display_ok, with_current. cbn [currentValue].
    destruct (Nat.ltb_spec 1 (length (currentValue c))).
    - split; [| etransitivity; [apply dots_firstn | exact Hdots]].
      intros E. apply (f_equal (@length N)) in E.
      rewrite length_firstn in E. cbn in E. lia.
    - split; [discriminate | vm_compute; lia]. }
  destruct (String.eqb action "percent");
    [unfold display_ok, with_current; cbn [currentValue]; apply toString_ok |].
  destruct (String.eqb action "decimal").
  { destruct (existsb (N.eqb dot) (currentValue c)) eqn:E; cbn [negb];
      [split; assumption |].
    unfold display_ok, with_current. cbn [currentValue].
    split; [destruct (currentValue c); discriminate |].
    pose proof (no_dot_count _ E) as Hz. unfold dots in *.
    rewrite count_occ_app, Hz. cbn.
    destruct (N.eq_dec dot dot); [lia | congruence]. }
  destruct (_ || _).
  { unfold display_ok. cbn [currentValue].
    destruct (pending c); [apply calculate_display_ok | split; assumption]. }
  destruct (String.eqb action "equals"); [| split; assumption].
  destruct (pending c); [| split; assumption].
  apply (calculate_display_ok c).
Qed.

(** X8.  Whatever digit keys and actions are pressed, in any order, the
    display of the calculator stays in order: it is never empty and never
    has more than one decimal point (given that the string of a number
    is not empty and has one decimal point at most). *)
Theorem display_stays_in_order (keys : list key) (c : Calc) :
  Forall digit_key keys ->
  display_ok c ->
  display_ok (press_all keys c).
Proof.
  revert c; induction keys as [|k keys IH]; intros c Hk Hc; [exact Hc |].
  inversion Hk as [|? ? Hd Hrest]; subst.
  unfold CalculatorKeys.press_all. cbn [fold_left]. apply IH; [exact Hrest |].
  destruct k as [num | action]; cbn [CalculatorKeys.press].
  - destruct Hd as (d & -> & Hd). apply handleNumber_display_ok; assumption.
  - apply handleAction_display_ok. exact Hc.
Qed.

Local Abbreviation String_ := (Calculator.String_ Number_toString).
Local Abbreviation apply_operator := (CalculatorKeys.apply_operator).

Lemma calculate_apply c :
  calculate c
  = {| currentValue :=
         String_ (apply_operator (operator c) (parseFloat (previousValue c))
                    (parseFloat (currentValue c)));
       previousValue := previousValue c; operator := operator c;
       shouldResetDisplay := true |}.
Proof.
  unfold Calculator.calculate, CalculatorKeys.apply_operator.
  repeat match goal with
         | |- context [String.eqb (operator c) ?a] =>
             destruct (String.eqb (operator c) a)
         end; try reflexivity.
  destruct (PrimFloat.eqb _ _); reflexivity.
Qed.

Lemma operator_key_idle op c :
  is_operator op -> pending c = false ->
  handleAction op c
  = {| currentValue := currentValue c; previousValue := currentValue c;
       operator := op; shouldResetDisplay := true |}.
Proof.
  intros [-> | [-> | [-> | ->]]] Hp; unfold CalculatorKeys.handleAction;
    rewrite Hp; reflexivity.
Qed.

Lemma operator_key_pending op c :
  is_operator op -> pending c = true ->
  handleAction op c
  = {| currentValue := currentValue (calculate c);
       previousValue := currentValue (calculate c);
       operator := op; shouldResetDisplay := true |}.
Proof.
  intros [-> | [-> | [-> | ->]]] Hp; unfold CalculatorKeys.handleAction;
    rewrite Hp; reflexivity.
Qed.

Lemma equals_key c :
  pending c = true ->
  handleAction "equals" c
  = {| currentValue := currentValue (calculate c); previousValue := [];
       operator := "";
       shouldResetDisplay := shouldResetDisplay (calculate c) |}.
Proof.
  intros Hp. unfold CalculatorKeys.handleAction.
  change (String.eqb "equals" "clear") with false.
  change (String.eqb "equals" "backspace") with false.
  change (String.eqb "equals" "percent") with false.
  change (String.eqb "equals" "decimal") with false.
  change (String.eqb "equals" "add" || String.eqb "equals" "subtract"
          || String.eqb "equals" "multiply" || String.eqb "equals" "divide")
    with false.
  change (String.eqb "equals" "equals") with true. cbv iota.
  rewrite Hp. reflexivity.
Qed.

Lemma operator_not_empty op : is_operator op -> String.eqb op "" = false.
Proof. intros [-> | [-> | [-> | ->]]]; reflexivity. Qed.

(** X9.  The calculator evaluates from left to right, with no
    precedence: after [a op1 b op2 c =] the display is the string of
    [(a op1 b) op2 c], where the intermediate result goes through its
    string form and is read back with [parseFloat]. *)
Theorem evaluation_left_to_right (a b c : jsstring) (op1 op2 : string) :
  a <> [] -> is_operator op1 -> is_operator op2 ->
  currentValue
    (press_all [Number a; Action op1; Number b; Action op2; Number c;
                Action "equals"] initial)
  = String_
      (apply_operator op2
         (parseFloat
            (String_ (apply_operator op1 (parseFloat a) (parseFloat b))))
         (parseFloat c)).
Proof.
  intros Ha H1 H2.
  set (r1 := String_ (apply_operator op1 (parseFloat a) (parseFloat b))).
  assert (Hr1 : truthy r1 = true).
  { subst r1. unfold CalculatorKeys.apply_operator.
    destruct H1 as [-> | [-> | [-> | ->]]];
      cbn [String.eqb Ascii.eqb Bool.eqb andb];
      try (destruct (PrimFloat.eqb _ _));
      cbn [Calculator.String_];
      first [ apply SearchFacts.truthy_nonempty, toString_not_empty
            | reflexivity ]. }
  unfold CalculatorKeys.press_all. cbn [fold_left CalculatorKeys.press].
  assert (E1 : handleNumber a initial
               = {| currentValue := a; previousValue := []; operator := "";
                    shouldResetDisplay := false |}).
  { unfold handleNumber, initial. cbn [shouldResetDisplay currentValue].
    destruct (decide (lit "0" = lit "0")); [reflexivity | congruence]. }
  rewrite E1, (operator_key_idle op1 _ H1) by reflexivity.
  cbn [currentValue].
  assert (E3 : handleNumber b
                 {| currentValue := a; previousValue := a; operator := op1;
                    shouldResetDisplay := true |}
               = {| currentValue := b; previousValue := a; operator := op1;
                    shouldResetDisplay := false |}) by reflexivity.
  rewrite E3, (operator_key_pending op2 _ H2).
  2:{ unfold pending. cbn [previousValue operator].
      rewrite (SearchFacts.truthy_nonempty a Ha), (operator_not_empty op1 H1).
      reflexivity. }
  rewrite calculate_apply.
  cbn [currentValue previousValue operator]. fold r1.
  assert (E5 : handleNumber c
                 {| currentValue := r1; previousValue := r1; operator := op2;
                    shouldResetDisplay := true |}
               = {| currentValue := c; previousValue := r1; operator := op2;
                    shouldResetDisplay := false |}) by reflexivity.
  rewrite E5, equals_key.
  - rewrite calculate_apply. reflexivity.
  - unfold pending. cbn [previousValue operator].
    rewrite Hr1, (operator_not_empty op2 H2). reflexivity.
Qed.

End Builtins.

End CalculatorKeysFacts.

Module TodosFacts.
Import Todos.

Lemma activeCount_clearCompleted todos :
  activeCount (clearCompleted todos) = activeCount todos /\
  length (clearCompleted todos) = activeCount todos.
Proof.
  unfold activeCount, clearCompleted. split; [| reflexivity].
  induction todos as [|t todos IH]; [reflexivity |].
  cbn [List.filter]. destruct (completed t) eqn:E; cbn [negb].
  - exact IH.
  - cbn [List.filter]. rewrite E. cbn [negb length]. rewrite IH. reflexivity.
Qed.

(** X10.  [addTodo] with a blank input changes neither the list nor the
    input.  Otherwise it clears the input and puts one new item in front
    of the others, with the trimmed input as its text and not completed:
    it counts as one more open item and stays when the completed items
    are cleared. *)
Theorem addTodo_adds_open_item input todos :
  (trim input = [] -> addTodo input todos = (todos, input)) /\
  (trim input <> [] ->
   exists t,
     addTodo input todos = (t :: todos, []) /\
     text t = trim input /\ completed t = false /\
     activeCount (fst (addTodo input todos)) = S (activeCount todos) /\
     clearCompleted (fst (addTodo input todos)) = t :: clearCompleted todos).
Proof.
  unfold addTodo. split.
  - intros ->. reflexivity.
  - intros Hne. rewrite (SearchFacts.truthy_nonempty _ Hne).
    eexists. split; [reflexivity |]. repeat split.
Qed.

(** X11.  Clearing the completed items leaves exactly the open items, in
    their order: none of the items left is completed, every open item is
    still there, the number of open items is unchanged and is now the
    length of the list; clearing again changes nothing. *)
Theorem clearCompleted_keeps_open_items todos :
  Forall (fun t => completed t = false) (clearCompleted todos) /\
  (forall t, In t todos -> completed t = false -> In t (clearCompleted todos)) /\
  (forall t, In t (clearCompleted todos) -> In t todos) /\
  activeCount (clearCompleted todos) = activeCount todos /\
  length (clearCompleted todos) = activeCount todos /\
  clearCompleted (clearCompleted todos) = clearCompleted todos.
Proof.
  split; [| split; [| split; [| split; [| split]]]].
  - apply List.Forall_forall. intros t Ht.
    apply filter_In in Ht. destruct Ht as [_ Ht].
    destruct (completed t); [discriminate | reflexivity].
  - intros t Ht Hc. apply filter_In. split; [exact Ht |]. rewrite Hc.
    reflexivity.
  - intros t Ht. apply filter_In in Ht. apply Ht.
  - apply activeCount_clearCompleted.
  - apply activeCount_clearCompleted.
  - unfold clearCompleted. induction todos as [|t todos IH]; [reflexivity |].
    cbn [List.filter]. destruct (completed t) eqn:E; cbn [negb]; [exact IH |].
    cbn [List.filter]. rewrite E. cbn [negb]. rewrite IH. reflexivity.
Qed.

(** No element that [renderTodos] makes has a [data-index]: it sets
    [data-id] only. *)
Lemma rendered_without_index todos el :
  In el (renderTodos todos) -> dataset_get "index" (dataset el) = None.
Proof.
  unfold renderTodos. destruct todos as [|t0 todos0].
  - cbn. intros H. repeat (destruct H as [<- | H]; [reflexivity |]).
    destruct H.
  - intros H. apply in_flat_map in H. destruct H as (t & _ & H).
    cbn in H. repeat (destruct H as [<- | H]; [reflexivity |]).
    destruct H.
Qed.

(** X12.  The click handler reads [data-index], which [renderTodos]
    never sets.  So on the rendered list a click on any check box throws
    and toggles nothing, and a click on any delete button removes the
    first item of the list, whichever item the button belongs to; a click
    elsewhere changes nothing. *)
Theorem click_ignores_the_item todos el :
  In el (renderTodos todos) ->
  on_click el todos =
  if contains_class "todo-checkbox" el then Throws
  else if contains_class "todo-delete" el then Done (skipn 1 todos)
  else Done todos.
Proof.
  intros H. unfold on_click. rewrite (rendered_without_index todos el H).
  reflexivity.
Qed.

End TodosFacts.

Module NotesFacts.
Import Notes.

Lemma ascii_codes_round_trip (l : list ascii) :
  map ascii_of_N (map N_of_ascii l) = l.
Proof.
  induction l as [|a l IH]; [reflexivity |]. cbn [map].
  rewrite ascii_N_embedding, IH. reflexivity.
Qed.

Lemma lit_below_256 (s : string) :
  forallb (fun c => (c <? 256)%N) (lit s) = true.
Proof.
  unfold lit. apply forallb_forall. intros c Hc.
  apply in_map_iff in Hc. destruct Hc as (a & <- & _).
  apply N.ltb_lt. unfold chr. apply N_ascii_bounded.
Qed.

(** Reading the string of an integer gives the integer back. *)
Lemma int_of_string_of_int (z : Z) :
  int_of_string (Storage.String_of_int z) = Some z.
Proof.
  unfold int_of_string, Storage.String_of_int. rewrite lit_below_256.
  unfold lit, chr. rewrite ascii_codes_round_trip.
  rewrite string_of_list_ascii_of_string.
  rewrite DecimalString.NilZero.isi.
  - cbn [option_map]. rewrite DecimalZ.of_to. reflexivity.
  - destruct z; cbn; try discriminate.
    intros [= E]. exact (DecimalPos.Unsigned.to_uint_nonnil _ E).
  - destruct z; cbn; try discriminate.
    intros [= E]. exact (DecimalPos.Unsigned.to_uint_nonnil _ E).
Qed.

Lemma loose_eq_dataset_id n m :
  loose_eq n (Storage.String_of_int m) = (n =? m)%Z.
Proof. unfold loose_eq. rewrite int_of_string_of_int. reflexivity. Qed.

Lemma deleteNote_filter m notes :
  deleteNote (dataset_id m) notes
  = List.filter (fun n => negb (id n =? id m)%Z) notes.
Proof.
  unfold deleteNote, dataset_id. induction notes as [|n notes IH];
    [reflexivity |].
  cbn [List.filter]. rewrite loose_eq_dataset_id, IH. reflexivity.
Qed.

Lemma filter_other_ids m notes :
  ~ In (id m) (map id notes) ->
  List.filter (fun n => negb (id n =? id m)%Z) notes = notes.
Proof.
  induction notes as [|n notes IH]; intros Hn; [reflexivity |].
  cbn [List.filter]. cbn [map In] in Hn.
  destruct (Z.eqb_spec (id n) (id m)) as [E | _]; [tauto |].
  cbn [negb]. rewrite IH; [reflexivity | tauto].
Qed.

(** X13.  A click on the delete button of a note removes the notes whose
    id is that of the note, and keeps the others in their order.  When
    the ids of the notes differ from one another this removes the one
    note and nothing else; two notes made in the same millisecond share
    their id and go together. *)
Theorem deleteNote_by_id m notes :
  deleteNote (dataset_id m) notes
    = List.filter (fun n => negb (id n =? id m)%Z) notes /\
  (List.NoDup (map id notes) -> In m notes ->
   exists before after,
     notes = before ++ m :: after /\
     deleteNote (dataset_id m) notes = before ++ after) /\
  (forall now left top left' top',
     deleteNote (dataset_id (List.hd m (addNote now left top notes)))
       (addNote now left' top' (addNote now left top notes))
     = List.filter (fun n => negb (id n =? now)%Z) notes).
Proof.
  split; [apply deleteNote_filter |]. split.
  - intros Hnd Hin. apply in_split in Hin.
    destruct Hin as (before & after & ->). exists before, after.
    split; [reflexivity |]. rewrite deleteNote_filter.
    rewrite map_app in Hnd. cbn [map] in Hnd.
    pose proof (NoDup_remove_2 _ _ _ Hnd) as Hnot.
    rewrite in_app_iff in Hnot.
    rewrite List.filter_app. cbn [List.filter]. rewrite Z.eqb_refl.
    cbn [negb]. rewrite !filter_other_ids by tauto. reflexivity.
  - intros now left top left' top'. rewrite deleteNote_filter.
    cbn [addNote List.hd List.filter id]. rewrite Z.eqb_refl. reflexivity.
Qed.

Lemma saveNoteText_ids clicked value notes :
  map id (saveNoteText clicked value notes) = map id notes.
Proof.
  induction notes as [|n notes IH]; [reflexivity |]. cbn [saveNoteText].
  destruct (loose_eq (id n) clicked); cbn [map id]; [reflexivity |].
  rewrite IH. reflexivity.
Qed.

(** X14.  Typing into a note stores the text in the first note with the
    id of the text area and leaves the ids, the order and the number of
    the notes as they are; when the ids differ from one another, that is
    the note typed into, and every other note keeps its text. *)
Theorem saveNoteText_updates_that_note m value notes :
  map id (saveNoteText (dataset_id m) value notes) = map id notes /\
  (List.NoDup (map id notes) -> In m notes ->
   exists before after,
     notes = before ++ m :: after /\
     saveNoteText (dataset_id m) value notes
     = before ++ {| id := id m; text := value; position := position m;
                    size := size m |} :: after).
Proof.
  split; [apply saveNoteText_ids |].
  intros Hnd Hin. apply in_split in Hin.
  destruct Hin as (before & after & ->). exists before, after.
  split; [reflexivity |].
  rewrite map_app in Hnd. cbn [map] in Hnd.
  pose proof (NoDup_remove_2 _ _ _ Hnd) as Hnot. rewrite in_app_iff in Hnot.
  assert (Hb : ~ In (id m) (map id before)) by tauto.
  clear Hnd Hnot. unfold dataset_id.
  induction before as [|b before IH]; cbn [app saveNoteText].
  - rewrite loose_eq_dataset_id, Z.eqb_refl. reflexivity.
  - cbn [map In] in Hb. rewrite loose_eq_dataset_id.
    destruct (Z.eqb_spec (id b) (id m)) as [E | _]; [tauto |].
    rewrite IH by tauto. reflexivity.
Qed.

End NotesFacts.

Module AutoSaveFacts.
Import Timers Storage StorageFacts.

Section Page.

Variable marked_parse : jsstring -> jsstring.

Local Abbreviation loadFromLocalStorage := (Storage.loadFromLocalStorage marked_parse).

Lemma blank_not_truthy (c : jsstring) :
  ~ has_non_white_space c -> truthy c && truthy (trim c) = false.
Proof.
  intros H. destruct (TextStatsFacts.all_space_or_not c) as [Ha | Hn];
    [| contradiction].
  rewrite (TextStatsFacts.trim_all_space c Ha). apply andb_false_r.
Qed.

(** X15.  With nothing saved (or only white space) and no [hasVisited]
    mark, [loadFromLocalStorage] shows the placeholder text and sets the
    mark.  As the placeholder is not saved, the next load, with still
    nothing saved, shows an empty editor. *)
Theorem first_visit_then_empty (p : Page) :
  no_saved_content p ->
  localStorage p !! "hasVisited" = None ->
  editor_value (loadFromLocalStorage p) = editor_placeholder p /\
  localStorage (loadFromLocalStorage p) !! "hasVisited" = Some (lit "true") /\
  localStorage (loadFromLocalStorage p) !! "editorContent"
    = localStorage p !! "editorContent" /\
  forall v,
    editor_value
      (loadFromLocalStorage (set_editor v (loadFromLocalStorage p))) = [].
Proof.
  intros Hno Hvis.
  assert (Hload : loadFromLocalStorage p
          = {| editor_value := editor_placeholder p;
               editor_placeholder := editor_placeholder p;
               preview_innerHTML := marked_parse (editor_placeholder p);
               localStorage := <["hasVisited" := lit "true"]> (localStorage p);
               pendingSaveData := pendingSaveData p;
               saveTimeout := saveTimeout p;
               status_classes := status_classes p;
               status_text := status_text p;
               clock := clock p; timers := timers p |}).
  { unfold Storage.loadFromLocalStorage, no_saved_content in *. rewrite Hvis.
    destruct (localStorage p !! "editorContent") as [c|]; [| reflexivity].
    rewrite (blank_not_truthy c Hno). reflexivity. }
  rewrite Hload. cbn [editor_value localStorage].
  split; [reflexivity |]. split; [apply lookup_insert_eq |].
  split; [apply lookup_insert_ne; discriminate |].
  intros v. unfold Storage.loadFromLocalStorage, set_editor.
  cbn [localStorage]. rewrite lookup_insert_eq.
  rewrite lookup_insert_ne by discriminate.
  unfold no_saved_content in Hno.
  destruct (localStorage p !! "editorContent") as [c|]; [| reflexivity].
  rewrite (blank_not_truthy c Hno). reflexivity.
Qed.

End Page.

Lemma flushSaveData_state p :
  pendingSaveData p <> [] ->
  localStorage (flushSaveData p)
    = write_entries (pendingSaveData p) (localStorage p) /\
  pendingSaveData (flushSaveData p) = [].
Proof.
  intros Hne. unfold flushSaveData.
  destruct (pendingSaveData p) as [|e es] eqn:E; [congruence |].
  replace (length (e :: es) =? 0) with false by reflexivity.
  match goal with
  | |- context [showAutoSaveStatus ?s ?q] =>
      destruct (showAutoSaveStatus_keeps s q) as (H1 & _ & H3)
  end.
  rewrite H1, H3. split; reflexivity.
Qed.

(** X16.  [flushSaveData] writes the keys of the buffer and no other:
    every key that is not in the buffer keeps what the store had for it.
    The buffer is empty afterwards, and with an empty buffer the function
    does nothing, so that a second call in a row changes nothing. *)
Theorem flushSaveData_frame (p : Page) :
  (forall k, ~ In k (map fst (pendingSaveData p)) ->
             localStorage (flushSaveData p) !! k = localStorage p !! k) /\
  pendingSaveData (flushSaveData p) = [] /\
  (pendingSaveData p = [] -> flushSaveData p = p) /\
  flushSaveData (flushSaveData p) = flushSaveData p.
Proof.
  assert (Hempty : forall q, pendingSaveData q = [] -> flushSaveData q = q).
  { intros q Hq. unfold flushSaveData. rewrite Hq. reflexivity. }
  assert (Hafter : pendingSaveData (flushSaveData p) = []).
  { destruct (pendingSaveData p) as [|e es] eqn:E.
    - rewrite (Hempty p E). exact E.
    - apply flushSaveData_state. rewrite E. discriminate. }
  split; [| split; [exact Hafter | split; [apply Hempty |]]].
  - intros k Hk. destruct (pendingSaveData p) as [|e es] eqn:E.
    + rewrite (Hempty p E). reflexivity.
    + destruct (flushSaveData_state p) as [Hls _]; [rewrite E; discriminate |].
      rewrite Hls, E. apply write_entries_absent. exact Hk.
  - apply Hempty. exact Hafter.
Qed.

Lemma obj_set_twice key v1 v2 obj :
  obj_set key v2 (obj_set key v1 obj) = obj_set key v2 obj.
Proof.
  induction obj as [|[k v] obj IH]; cbn [obj_set].
  - rewrite String.eqb_refl. reflexivity.
  - destruct (String.eqb k key) eqn:E; cbn [obj_set]; rewrite E;
      [reflexivity | rewrite IH; reflexivity].
Qed.

Lemma queueSaveData_pending key value p :
  pendingSaveData (queueSaveData key value p)
    = obj_set key value (pendingSaveData p) /\
  localStorage (queueSaveData key value p) = localStorage p.
Proof. unfold queueSaveData. split; reflexivity. Qed.

(** X17.  The buffer keeps one entry for a key and the last value queued
    wins: after two [queueSaveData] for the same key the buffer is what
    the second alone would have left, and the flush stores the second
    value.  Until the flush the store is untouched. *)
Theorem queueSaveData_last_value_wins key v1 v2 (p : Page) :
  List.NoDup (map fst (pendingSaveData p)) ->
  pendingSaveData (queueSaveData key v2 (queueSaveData key v1 p))
    = pendingSaveData (queueSaveData key v2 p) /\
  localStorage (queueSaveData key v2 (queueSaveData key v1 p))
    = localStorage p /\
  localStorage
    (flushSaveData (queueSaveData key v2 (queueSaveData key v1 p))) !! key
    = Some v2.
Proof.
  intros Hnd.
  destruct (queueSaveData_pending key v2 (queueSaveData key v1 p)) as [H1 H2].
  destruct (queueSaveData_pending key v1 p) as [H3 H4].
  destruct (queueSaveData_pending key v2 p) as [H5 _].
  split; [rewrite H1, H3, H5; apply obj_set_twice |].
  split; [rewrite H2, H4; reflexivity |].
  apply flushSaveData_writes.
  - rewrite H1, H3. apply obj_set_NoDup, obj_set_NoDup, Hnd.
  - rewrite H1. apply obj_set_In.
Qed.

Lemma saveToLocalStorage_quiet (p : Page) :
  quiet p ->
  exists id nid,
    saveToLocalStorage p
    = {| editor_value := editor_value p;
         editor_placeholder := editor_placeholder p;
         preview_innerHTML := preview_innerHTML p;
         localStorage := localStorage p;
         pendingSaveData :=
           [("editorContent"%string, editor_value p);
            ("editorLastSave"%string, String_of_int (clock p))];
         saveTimeout := Some id;
         status_classes := status_classes p; status_text := status_text p;
         clock := clock p;
         timers := {| next_id := nid;
                      pending := [{| tid := id; due := (clock p + 3000)%Z;
                                     callback := FlushSaveData |}] |} |}.
Proof.
  intros [Hq Hb]. destruct p as [ev ep pv ls pend st sc stx ck [nid tms]].
  cbn in Hq, Hb. subst tms pend.
  exists (S nid), (S (S nid)).
  unfold saveToLocalStorage, queueSaveData.
  destruct st as [i|]; cbn; rewrite Nat.eqb_refl; reflexivity.
Qed.

Lemma pop_due_single {C : Type} t nid (tm : timer C) :
  pop_due t {| next_id := nid; pending := [tm] |}
  = if (due tm <=? t)%Z
    then Some (tm, {| next_id := nid; pending := [] |})
    else None.
Proof.
  unfold pop_due. cbn [pending earliest next_id].
  destruct (due tm <=? t)%Z; [| reflexivity].
  cbn [List.filter]. rewrite Nat.eqb_refl. reflexivity.
Qed.

Lemma run_due_step {C S : Type} (rc : Z -> C -> S * queue C -> S * queue C)
    fuel t s tm q' :
  pop_due t (snd s) = Some (tm, q') ->
  run_due rc (Datatypes.S fuel) t s
  = run_due rc fuel t (rc (due tm) (callback tm) (fst s, q')).
Proof. intros H. cbn [run_due]. rewrite H. reflexivity. Qed.

Lemma run_due_none {C S : Type} (rc : Z -> C -> S * queue C -> S * queue C)
    fuel t s :
  pop_due t (snd s) = None -> run_due rc fuel t s = Some s.
Proof. intros H. destruct fuel; cbn [run_due]; rewrite H; reflexivity. Qed.

(** X18.  A save is written three seconds after it was queued and not
    before.  On a page where nothing is pending, after
    [saveToLocalStorage] at the time [t] the store is as it was as long
    as the clock is before [t + 3000]; once the clock is there the store
    holds the editor's text under [editorContent] and the string of [t]
    under [editorLastSave], and the buffer is empty. *)
Theorem save_is_written_after_three_seconds (p : Page) (fuel : nat) (h : Z) :
  quiet p ->
  1 <= fuel ->
  (clock p <= h < clock p + 5000)%Z ->
  exists p',
    advance_to fuel h (saveToLocalStorage p) = Some p' /\
    clock p' = h /\
    ((h < clock p + 3000)%Z ->
     localStorage p' = localStorage p /\
     pendingSaveData p' = pendingSaveData (saveToLocalStorage p)) /\
    ((clock p + 3000 <= h)%Z ->
     localStorage p' !! "editorContent" = Some (editor_value p) /\
     localStorage p' !! "editorLastSave" = Some (String_of_int (clock p)) /\
     pendingSaveData p' = []).
Proof.
  intros Hq Hfuel Hh.
  destruct (saveToLocalStorage_quiet p Hq) as (id & nid & ->).
  destruct fuel as [|fuel]; [lia |].
  unfold advance_to. cbn [timers].
  destruct (Z.leb_spec (clock p + 3000) h) as [Hdue | Hnot].
  - erewrite run_due_step.
    2:{ cbn [snd]. rewrite pop_due_single. cbn [due].
        destruct (Z.leb_spec (clock p + 3000) h); [reflexivity | lia]. }
    cbn [due callback fst].
    remember (run_callback _ _ _) as s1 eqn:Hs1.
    unfold run_callback, set_timers, set_clock, flushSaveData in Hs1.
    cbn in Hs1. subst s1.
    rewrite run_due_none.
    2:{ cbn [snd]. rewrite pop_due_single. cbn [due].
        destruct (Z.leb_spec (clock p + 3000 + Z.max 0 2000) h);
        [lia | reflexivity]. }
    cbn [option_map fst]. eexists. split; [reflexivity |].
    cbn [set_clock clock localStorage pendingSaveData].
    split; [reflexivity |]. split; [intros; lia |]. intros _.
    unfold write_entries. cbn [fold_left fst snd].
    split; [rewrite lookup_insert_ne by discriminate; apply lookup_insert_eq |].
    split; [apply lookup_insert_eq | reflexivity].
  - rewrite run_due_none.
    2:{ cbn [snd]. rewrite pop_due_single. cbn [due].
        destruct (Z.leb_spec (clock p + 3000) h); [lia | reflexivity]. }
    cbn [option_map fst]. eexists. split; [reflexivity |].
    cbn [set_clock clock localStorage pendingSaveData].
    split; [reflexivity |]. split; [intros _; split; reflexivity |].
    intros; lia.
Qed.

End AutoSaveFacts.

(* ===================================================================== *)
(** * Concrete runs *)
(* ===================================================================== *)

(** The runs below use an engine whose upper-case table leaves the code
    units above ASCII alone, a markdown renderer that returns its input,
    and arguments that are numbers. *)
Module Runs.
Import RegExp Search.

Example escape_dot :
  escapeRegExp (lit "a.b") = [97; 92; 46; 98]%N /\
  compile (lit "a.b") = None /\
  compile (escapeRegExp (lit "a.b")) = Some (lit "a.b").
Proof. repeat split. Qed.

Example search_literal_dot :
  option_map searchMatches
    (performSearch (fun c => [c]) 20 (lit " a.B ") (lit "xA.b a.b aXb") initial)
  = Some [ {| index := 1; text := lit "A.b"; end_ := 4 |};
           {| index := 5; text := lit "a.b"; end_ := 8 |} ].
Proof. reflexivity. Qed.

Example search_no_overlap :
  option_map (fun st => (map index (searchMatches st), currentMatchIndex st))
    (performSearch (fun c => [c]) 20 (lit "aa") (lit "aaaaa") initial)
  = Some ([0; 2], 0%Z).
Proof. reflexivity. Qed.

Example debounce_run :
  Debounce.run 300 [(0, 1); (100, 2); (500, 3)]%Z 1000
  = Some [(400, 2); (800, 3)]%Z.
Proof. reflexivity. Qed.

Example debounce_pending_at_horizon :
  Debounce.run 300 [(0, 1); (100, 2)]%Z 399 = Some [].
Proof. reflexivity. Qed.

Example throttle_run :
  Throttle.run 100 [(0, 1); (50, 2); (100, 3); (150, 4); (260, 5)]%Z 1000
  = Some [(0, 1); (100, 3); (260, 5)]%Z.
Proof. reflexivity. Qed.

Example hexToRgb_red :
  Color.hexToRgb (fun c => [c]) (lit "#ff0000")
  = Some {| Color.r := Some 255%Z; Color.g := Some 0%Z; Color.b := Some 0%Z |}.
Proof. reflexivity. Qed.

Example hexToRgb_upper_case_no_hash :
  Color.hexToRgb (fun c => [c]) (lit "1A2b3C")
  = Some {| Color.r := Some 26%Z; Color.g := Some 43%Z; Color.b := Some 60%Z |}.
Proof. reflexivity. Qed.

Example hexToRgb_rejects :
  Color.hexToRgb (fun c => [c]) (lit "#ff000") = None /\
  Color.hexToRgb (fun c => [c]) (lit "#ff00000") = None /\
  Color.hexToRgb (fun c => [c]) (lit "#gg0000") = None /\
  Color.hexToRgb (fun c => [c]) (lit "##ff0000") = None /\
  Color.hexToRgb (fun c => [c]) (lit "") = None.
Proof. repeat split. Qed.

Example password_of_letters :
  Password.generatePassword (fun i => inject_Z (Z.of_nat i) / 4)%Q 4
    true false false false
  = lit "AGNT".
Proof. reflexivity. Qed.

Example celsius_to_fahrenheit :
  match Converter.convert "temperature" "celsius" "fahrenheit" 100 with
  | Some y => Qeq_bool y 212
  | None => false
  end = true.
Proof. reflexivity. Qed.

Example save_queues_two_keys :
  Storage.pendingSaveData (Storage.saveToLocalStorage Storage.fresh_page)
  = [("editorContent"%string, lit "# Hi");
     ("editorLastSave"%string, lit "1700000000000")].
Proof. reflexivity. Qed.



Example search_session :
  option_map (fun st => (length (searchMatches st), currentMatchIndex st))
    (run_ops (fun c => [c])
       [PerformSearch (lit "an") (lit "banana"); NavigateSearch 1;
        NavigateSearch 1; NavigateSearch (-1); NavigateSearch (-1)]
       initial)
  = Some (2, 0%Z).
Proof. reflexivity. Qed.

Lemma convert_round_trip_witness :
  In "length"%string Converter.categories /\
  In "km"%string (Converter.units "length") /\
  In "ft"%string (Converter.units "length") /\
  (exists y z, Converter.convert "length" "km" "ft" 5 = Some y /\
               Converter.convert "length" "ft" "km" y = Some z /\ z == 5) /\
  (exists y, Converter.convert "length" "km" "km" 5 = Some y /\ y == 5).
Proof.
  assert (H1 : In "length"%string Converter.categories)
    by (left; reflexivity).
  assert (H2 : In "km"%string (Converter.units "length"))
    by (right; left; reflexivity).
  assert (H3 : In "ft"%string (Converter.units "length"))
    by (do 4 right; left; reflexivity).
  split; [exact H1 |]. split; [exact H2 |]. split; [exact H3 |].
  exact (ConverterFacts.convert_round_trip "length" "km" "ft" 5 H1 H2 H3).
Defined.

Lemma calculate_divide_witness :
  let parseFloat := fun s : jsstring =>
                      match s with [] => 0%float | _ => 8%float end in
  let toString := fun _ : float => lit "n" in
  let c := {| Calculator.currentValue := [];
              Calculator.previousValue := lit "8";
              Calculator.operator := "divide";
              Calculator.shouldResetDisplay := false |} in
  Calculator.operator c = "divide"%string /\
  Calculator.currentValue (Calculator.calculate parseFloat toString c)
  = lit "Error".
Proof.
  cbv zeta. split; [reflexivity |].
  apply (proj1 (CalculatorFacts.calculate_divide
                  (fun s : jsstring => match s with [] => 0%float | _ => 8%float end)
                  (fun _ : float => lit "n")
                  {| Calculator.currentValue := [];
                     Calculator.previousValue := lit "8";
                     Calculator.operator := "divide";
                     Calculator.shouldResetDisplay := false |}
                  eq_refl)).
  reflexivity.
Defined.


End Runs.


(** Runs of the editing, calculator, to-do and auto-save parts. *)
Module MoreRuns.
Import Editing Samples.

Example bold_wraps_selection :
  insertMarkdown "bold" hello_el
  = {| value := lit "h**el**lo"; selectionStart := 7; selectionEnd := 7 |}.
Proof. reflexivity. Qed.

Example unknown_action_deletes_selection :
  insertMarkdown "nothing" hello_el
  = {| value := lit "hlo"; selectionStart := 1; selectionEnd := 1 |}.
Proof. reflexivity. Qed.

Lemma insertMarkdown_frame_and_cursor_witness :
  selectionStart hello_el <= selectionEnd hello_el /\
  selectionEnd hello_el <= length (value hello_el) /\
  exists newText,
    value (insertMarkdown "bold" hello_el)
    = firstn 1 (lit "hello") ++ newText ++ skipn 3 (lit "hello").
Proof.
  assert (H1 : selectionStart hello_el <= selectionEnd hello_el)
    by (vm_compute; lia).
  assert (H2 : selectionEnd hello_el <= length (value hello_el))
    by (vm_compute; lia).
  split; [exact H1 |]. split; [exact H2 |].
  destruct (EditingFacts.insertMarkdown_frame_and_cursor "bold" hello_el H1 H2)
    as (newText & Hv & _).
  exists newText. exact Hv.
Defined.

Lemma insertMarkdown_keeps_selection_witness :
  wraps_selection "link" = true /\
  substring 1 3 (lit "hello") <> [] /\
  exists pre post,
    value (insertMarkdown "link" hello_el)
    = firstn 1 (lit "hello") ++ (pre ++ lit "el" ++ post)
        ++ skipn 3 (lit "hello").
Proof.
  assert (H1 : wraps_selection "link" = true) by reflexivity.
  assert (H2 : substring (selectionStart hello_el) (selectionEnd hello_el)
                 (value hello_el) <> []) by (vm_compute; discriminate).
  split; [exact H1 |]. split; [exact H2 |].
  exact (EditingFacts.insertMarkdown_keeps_selection "link" hello_el H1 H2).
Defined.

Lemma insertMarkdown_replaces_selection_witness :
  wraps_selection "hr" = false /\
  value (insertMarkdown "hr" hello_el)
  = firstn 1 (lit "hello") ++ fst (markup "hr" []) ++ skipn 3 (lit "hello").
Proof.
  assert (H0 : wraps_selection "hr" = false) by reflexivity.
  assert (H1 : selectionStart hello_el <= selectionEnd hello_el)
    by (vm_compute; lia).
  assert (H2 : selectionEnd hello_el <= length (value hello_el))
    by (vm_compute; lia).
  split; [exact H0 |].
  exact (proj1 (EditingFacts.insertMarkdown_replaces_selection "hr" hello_el
                  H0 H1 H2)).
Defined.

Lemma toString_small_not_empty x : toString_small x <> [].
Proof.
  unfold toString_small.
  destruct (PrimFloat.eqb x 4); [discriminate |].
  destruct (PrimFloat.eqb x 8); discriminate.
Defined.

Lemma toString_small_one_dot x : CalculatorKeys.dots (toString_small x) <= 1.
Proof.
  unfold toString_small.
  destruct (PrimFloat.eqb x 4); [vm_compute; lia |].
  destruct (PrimFloat.eqb x 8); vm_compute; lia.
Defined.

Lemma display_stays_in_order_witness :
  Forall CalculatorKeys.digit_key
    [CalculatorKeys.Number (lit "2"); CalculatorKeys.Action "decimal";
     CalculatorKeys.Action "decimal"; CalculatorKeys.Action "add";
     CalculatorKeys.Action "equals"] /\
  CalculatorKeys.display_ok CalculatorKeys.initial /\
  CalculatorKeys.display_ok
    (CalculatorKeys.press_all parseFloat_2 toString_small
       [CalculatorKeys.Number (lit "2"); CalculatorKeys.Action "decimal";
        CalculatorKeys.Action "decimal"; CalculatorKeys.Action "add";
        CalculatorKeys.Action "equals"]
       CalculatorKeys.initial).
Proof.
  assert (H1 : Forall CalculatorKeys.digit_key
            [CalculatorKeys.Number (lit "2"); CalculatorKeys.Action "decimal";
             CalculatorKeys.Action "decimal"; CalculatorKeys.Action "add";
             CalculatorKeys.Action "equals"]).
  { repeat (apply List.Forall_cons; [| ]); try apply List.Forall_nil;
      try exact I.
    exists 50%N. split; reflexivity. }
  assert (H2 : CalculatorKeys.display_ok CalculatorKeys.initial).
  { split; [discriminate | vm_compute; lia]. }
  split; [exact H1 |]. split; [exact H2 |].
  exact (CalculatorKeysFacts.display_stays_in_order parseFloat_2 toString_small
           toString_small_not_empty toString_small_one_dot _ _ H1 H2).
Defined.

Lemma evaluation_left_to_right_witness :
  lit "2" <> [] /\
  CalculatorKeys.is_operator "add" /\
  CalculatorKeys.is_operator "multiply" /\
  Calculator.currentValue
    (CalculatorKeys.press_all parseFloat_2 toString_small
       [CalculatorKeys.Number (lit "2"); CalculatorKeys.Action "add";
        CalculatorKeys.Number (lit "2"); CalculatorKeys.Action "multiply";
        CalculatorKeys.Number (lit "2"); CalculatorKeys.Action "equals"]
       CalculatorKeys.initial)
  = lit "4".
Proof.
  assert (H0 : lit "2" <> []) by discriminate.
  assert (H1 : CalculatorKeys.is_operator "add") by (left; reflexivity).
  assert (H2 : CalculatorKeys.is_operator "multiply")
    by (right; right; left; reflexivity).
  split; [exact H0 |]. split; [exact H1 |]. split; [exact H2 |].
  rewrite (CalculatorKeysFacts.evaluation_left_to_right parseFloat_2
             toString_small toString_small_not_empty
             (lit "2") (lit "2") (lit "2") "add" "multiply" H0 H1 H2).
  reflexivity.
Defined.

Lemma click_ignores_the_item_witness :
  In second_delete (Todos.renderTodos two_todos) /\
  Todos.on_click second_delete two_todos = Todos.Done (skipn 1 two_todos).
Proof.
  assert (H : In second_delete (Todos.renderTodos two_todos)).
  { do 7 right. left. reflexivity. }
  split; [exact H |].
  rewrite (TodosFacts.click_ignores_the_item two_todos second_delete H).
  reflexivity.
Defined.

Lemma first_visit_then_empty_witness :
  Storage.no_saved_content Storage.fresh_page /\
  Storage.localStorage Storage.fresh_page !! "hasVisited" = None /\
  Storage.editor_value
    (Storage.loadFromLocalStorage (fun s => s) Storage.fresh_page)
  = lit "welcome" /\
  Storage.editor_value
    (Storage.loadFromLocalStorage (fun s => s)
       (Storage.set_editor []
          (Storage.loadFromLocalStorage (fun s => s) Storage.fresh_page)))
  = [].
Proof.
  assert (H1 : Storage.no_saved_content Storage.fresh_page) by exact I.
  assert (H2 : Storage.localStorage Storage.fresh_page !! "hasVisited" = None)
    by reflexivity.
  split; [exact H1 |]. split; [exact H2 |].
  destruct (AutoSaveFacts.first_visit_then_empty (fun s => s)
              Storage.fresh_page H1 H2) as (Hv & _ & _ & Hnext).
  split; [exact Hv | exact (Hnext [])].
Defined.

Lemma queueSaveData_last_value_wins_witness :
  List.NoDup (map fst (Storage.pendingSaveData Storage.fresh_page)) /\
  Storage.localStorage
    (Storage.flushSaveData
       (Storage.queueSaveData "todos" (lit "[2]")
          (Storage.queueSaveData "todos" (lit "[1]") Storage.fresh_page)))
    !! "todos"
  = Some (lit "[2]").
Proof.
  assert (H : List.NoDup (map fst (Storage.pendingSaveData Storage.fresh_page)))
    by apply List.NoDup_nil.
  split; [exact H |].
  exact (proj2 (proj2 (AutoSaveFacts.queueSaveData_last_value_wins "todos"
                         (lit "[1]") (lit "[2]") Storage.fresh_page H))).
Defined.

Lemma save_is_written_after_three_seconds_witness :
  Storage.quiet Storage.fresh_page /\
  exists p',
    Storage.advance_to 1 1700000003000
      (Storage.saveToLocalStorage Storage.fresh_page) = Some p' /\
    Storage.localStorage p' !! "editorContent" = Some (lit "# Hi").
Proof.
  assert (H : Storage.quiet Storage.fresh_page) by (split; reflexivity).
  split; [exact H |].
  assert (H1 : 1 <= 1) by apply Nat.le_refl.
  assert (H2 : (Storage.clock Storage.fresh_page <= 1700000003000
                < Storage.clock Storage.fresh_page + 5000)%Z)
    by (split; [discriminate | reflexivity]).
  destruct (AutoSaveFacts.save_is_written_after_three_seconds
              Storage.fresh_page 1 1700000003000 H H1 H2)
    as (p' & Hrun & _ & _ & Hlate).
  exists p'. split; [exact Hrun |].
  apply Hlate. discriminate.
Defined.

End MoreRuns.
